(** * ci_combi.py: enumeration of alpha/beta electron configurations

    A shallow embedding of [ConfigurationGenerator] from [src/ci_combi.py]
    and the properties of [generate_configurations], followed by
    [CIConverter.det_to_occupation] from [src/conversion.py], which writes
    the same occupation notation from lists of orbital indices.

    Python integers are unbounded and are modelled as [Z]; orbital indices
    come out of [range] and are modelled as [nat]; one-character strings
    are [ascii], strings are [string]; the result [set] of strings is a
    [gset string]; the ordered [dict] of irreps is the list of its items
    in insertion order.  Exceptions are explicit: a computation returns
    [Ok v] or [Raise e]. *)

From Stdlib Require Import ZArith Ascii String.
From stdpp Require Import base numbers list strings gmap.

Local Open Scope Z_scope.

(** ** Exceptions and the error monad *)

Inductive exn : Set := ValueError | IndexError | OverflowError | MemoryError.

Inductive result (A : Type) : Type :=
  | Ok (a : A)
  | Raise (e : exn).
Arguments Ok {A} a.
Arguments Raise {A} e.

#[global] Instance result_ret : MRet result := λ A a, Ok a.
#[global] Instance result_bind : MBind result := λ A B f m,
  match m with
  | Ok a => f a
  | Raise e => Raise e
  end.

(** ** The fragment of Python the script uses *)

Module Py.

(** [range(n)]: the indices [0 .. n-1], empty when [n <= 0]. *)
Definition range (n : Z) : list nat := seq 0 (Z.to_nat n).

(** [[x] * n]: [n] copies of [x], empty when [n <= 0]. *)
Definition repeat {A} (x : A) (n : Z) : list A := replicate (Z.to_nat n) x.

(** [sum(values)]. *)
Definition sum (values : list Z) : Z := foldl Z.add 0 values.

(** [l[i]] for an index [i >= 0]: raises [IndexError] out of range. *)
Definition getitem {A} (l : list A) (i : nat) : result A :=
  match l !! i with
  | Some x => Ok x
  | None => Raise IndexError
  end.

(** [l[i] = x] for an index [i >= 0]: raises [IndexError] out of range. *)
Definition setitem {A} (l : list A) (i : nat) (x : A) : result (list A) :=
  if decide (i < length l)%nat then Ok (<[i := x]> l) else Raise IndexError.

(** Slice bounds: a negative bound counts from the end, and both bounds
    are clamped to [0 .. len]. *)
Definition slice_index (len i : Z) : Z :=
  if decide (i < 0) then Z.max (i + len) 0 else Z.min i len.

(** [l[start:stop]]. *)
Definition slice {A} (l : list A) (start stop : Z) : list A :=
  let len := Z.of_nat (length l) in
  let lo := slice_index len start in
  let hi := slice_index len stop in
  take (Z.to_nat (hi - lo)) (drop (Z.to_nat lo) l).

(** [''.join(chars)] for a list of one-character strings. *)
Definition join_chars (chars : list ascii) : string :=
  string_of_list_ascii chars.

(** [sep.join(parts)]. *)
Definition join (sep : string) (parts : list string) : string :=
  String.concat sep parts.

(** The tuples of [itertools.combinations(pool, r)] for [r >= 0], in the
    order in which they are produced (lexicographic in positions). *)
Fixpoint subsequences {A} (pool : list A) (r : nat) : list (list A) :=
  match r with
  | O => [[]]
  | S r' =>
      match pool with
      | [] => []
      | x :: pool' =>
          map (cons x) (subsequences pool' r') ++ subsequences pool' r
      end
  end.

(** The largest [Py_ssize_t] of a 64-bit CPython, [sys.maxsize]. *)
Definition ssize_t_max : Z := 9223372036854775807.

(** The longest array of [Py_ssize_t] that can be asked for:
    [PY_SSIZE_T_MAX / sizeof(Py_ssize_t)] entries. *)
Definition ssize_t_array_max : Z := 1152921504606846975.

(** [itertools.combinations(pool, r)].  The argument [r] is converted to a
    [Py_ssize_t] first ([OverflowError] when it does not fit), a negative
    [r] is refused with [ValueError], and the array of [r] indices is
    allocated before the first tuple is produced ([MemoryError] when [r]
    is more than an array can hold). *)
Definition combinations {A} (pool : list A) (r : Z) : result (list (list A)) :=
  if decide (r < - ssize_t_max - 1 ∨ ssize_t_max < r) then Raise OverflowError
  else if decide (r < 0) then Raise ValueError
  else if decide (ssize_t_array_max < r) then Raise MemoryError
  else Ok (subsequences pool (Z.to_nat r)).

End Py.

(** ** The object and its state monad *)

Record ConfigurationGenerator : Type := {
  total_electrons : Z;
  active_electrons : Z;
  frozen_core : Z;
  irrep_specs : list (string * Z);
  n_orbitals : Z;
  irrep_positions : list (Z * Z)
}.

(** A method runs on [self] and returns a value or raises; the object
    after the call is returned next to the outcome. *)
Definition M (A : Type) : Type :=
  ConfigurationGenerator → result A * ConfigurationGenerator.

#[global] Instance M_ret : MRet M := λ A a self, (Ok a, self).
#[global] Instance M_bind : MBind M := λ A B f m self,
  match m self with
  | (Ok a, self') => f a self'
  | (Raise e, self') => (Raise e, self')
  end.

(** [self.field]. *)
Definition read {A} (field : ConfigurationGenerator → A) : M A :=
  λ self, (Ok (field self), self).

(** A call that does not involve [self]. *)
Definition lift {A} (r : result A) : M A := λ self, (r, self).

(** [for x in xs: body], with the local variables the body assigns
    threaded through as [acc]. *)
Fixpoint for_in {A B} (xs : list A) (acc : B) (body : B → A → M B) : M B :=
  match xs with
  | [] => mret acc
  | x :: xs' => acc' ← body acc x; for_in xs' acc' body
  end.

(** ** [ConfigurationGenerator.__init__] *)

Definition __init__ (total_electrons frozen_core : Z)
    (irrep_specs : list (string * Z)) : ConfigurationGenerator :=
  let '(irrep_positions, _) :=
    foldl (λ '(irrep_positions, pos) '(irrep, count),
             (irrep_positions ++ [(pos, pos + count)], pos + count))
          ([], 0) irrep_specs in
  {| total_electrons := total_electrons;
     active_electrons := total_electrons - frozen_core;
     frozen_core := frozen_core;
     irrep_specs := irrep_specs;
     n_orbitals := Py.sum (irrep_specs.*2);
     irrep_positions := irrep_positions |}.

(** ** [_format_configuration] *)

Definition _format_configuration (distribution : list ascii) : M string :=
  positions ← read irrep_positions;
  result ← for_in positions [] (λ result '(start, stop),
    mret (result ++ [Py.join_chars (Py.slice distribution start stop)]));
  mret (Py.join " " result).

(** ** [_generate_spin_distributions] *)

(** The two assignments that open the method. *)
Definition spin_split (active : Z) : Z * Z :=
  let n_alpha := active `div` 2 in
  let n_beta := active - n_alpha in
  (n_alpha, n_beta).

(** The loop over [alpha_pos]: [dist[pos] = 'a']. *)
Fixpoint place_alpha (dist : list ascii) (alpha_pos : list nat)
    : result (list ascii) :=
  match alpha_pos with
  | [] => Ok dist
  | pos :: rest => dist' ← Py.setitem dist pos "a"%char; place_alpha dist' rest
  end.

(** The loop over [beta_pos]; the second component is [valid_config], and
    the loop is left at the [break]. *)
Fixpoint place_beta (dist : list ascii) (beta_pos : list nat)
    : result (list ascii * bool) :=
  match beta_pos with
  | [] => Ok (dist, true)
  | pos :: rest =>
      c ← Py.getitem dist pos;
      if decide (c = "0"%char) then
        dist' ← Py.setitem dist pos "b"%char; place_beta dist' rest
      else if decide (c = "a"%char) then
        dist' ← Py.setitem dist pos "2"%char; place_beta dist' rest
      else Ok (dist, false)
  end.

(** The orbital string of one (alpha, beta) pair over [n] orbitals. *)
Definition build_distribution (n : Z) (alpha_pos beta_pos : list nat)
    : result (list ascii * bool) :=
  dist ← place_alpha (Py.repeat "0"%char n) alpha_pos;
  place_beta dist beta_pos.

Definition _generate_spin_distributions : M (gset string) :=
  active ← read active_electrons;
  let '(n_alpha, n_beta) := spin_split active in
  n ← read n_orbitals;
  alphas ← lift (Py.combinations (Py.range n) n_alpha);
  for_in alphas (∅ : gset string) (λ distributions alpha_pos,
    n ← read n_orbitals;
    betas ← lift (Py.combinations (Py.range n) n_beta);
    for_in betas distributions (λ distributions beta_pos,
      n ← read n_orbitals;
      '(dist, valid_config) ← lift (build_distribution n alpha_pos beta_pos);
      if (valid_config : bool) then
        config ← _format_configuration dist;
        mret ({[config]} ∪ distributions)
      else mret distributions)).

(** ** [generate_configurations] *)

Definition generate_configurations : M (gset string) :=
  _generate_spin_distributions.

(** What a call returns (or raises), and the object it leaves. *)
Definition returns {A} (m : M A) (self : ConfigurationGenerator) : result A :=
  (m self).1.
Definition leaves {A} (m : M A) (self : ConfigurationGenerator)
    : ConfigurationGenerator :=
  (m self).2.

(** * conversion.py: determinants to occupation notation *)

Module Conversion.

(** The exceptions [det_to_occupation] can end with: the four [ValueError]s
    it raises itself, with the numbers their messages carry, and the
    [IndexError] of a list access. *)
Inductive error : Set :=
  | IndexExceeds (orbital_idx n_orbitals : Z)
  | AlreadyAlpha (orbital_idx : Z)
  | AlreadyBeta (orbital_idx : Z)
  | ElectronCount (expected found : Z)
  | ListIndexError.

Inductive outcome (A : Type) : Type :=
  | Return (a : A)
  | Fail (e : error).
Arguments Return {A} a.
Arguments Fail {A} e.

#[global] Instance outcome_ret : MRet outcome := λ A a, Return a.
#[global] Instance outcome_bind : MBind outcome := λ A B f m,
  match m with
  | Return a => f a
  | Fail e => Fail e
  end.

Record CIConverter : Type := {
  n_orbitals : Z;
  n_electrons : Z
}.

(** [CIConverter.__init__]. *)
Definition __init__ (n_orbitals n_electrons : Z) : CIConverter :=
  {| n_orbitals := n_orbitals; n_electrons := n_electrons |}.

(** The position a list of length [len] is accessed at by the index [i]:
    a negative index counts from the end, and there is none out of
    range. *)
Definition position (len : nat) (i : Z) : option nat :=
  let j := if decide (i < 0) then i + Z.of_nat len else i in
  if decide (0 ≤ j < Z.of_nat len) then Some (Z.to_nat j) else None.

(** [l[i]] for any integer [i]. *)
Definition getitem {A} (l : list A) (i : Z) : outcome A :=
  match position (length l) i with
  | Some j =>
      match l !! j with
      | Some x => Return x
      | None => Fail ListIndexError
      end
  | None => Fail ListIndexError
  end.

(** [l[i] = x] for any integer [i]. *)
Definition setitem {A} (l : list A) (i : Z) (x : A) : outcome (list A) :=
  match position (length l) i with
  | Some j => Return (<[j := x]> l)
  | None => Fail ListIndexError
  end.

(** The loop over [det_alpha]. *)
Fixpoint process_alpha (self : CIConverter) (occupation : list ascii)
    (det_alpha : list Z) : outcome (list ascii) :=
  match det_alpha with
  | [] => Return occupation
  | orbital_idx :: rest =>
      if decide (orbital_idx >= n_orbitals self) then
        Fail (IndexExceeds orbital_idx (n_orbitals self))
      else
        c ← getitem occupation orbital_idx;
        if decide (c = "0"%char) then
          occupation' ← setitem occupation orbital_idx "a"%char;
          process_alpha self occupation' rest
        else
          c' ← getitem occupation orbital_idx;
          if decide (c' = "b"%char) then
            occupation' ← setitem occupation orbital_idx "2"%char;
            process_alpha self occupation' rest
          else Fail (AlreadyAlpha orbital_idx)
  end.

(** The loop over [det_beta]. *)
Fixpoint process_beta (self : CIConverter) (occupation : list ascii)
    (det_beta : list Z) : outcome (list ascii) :=
  match det_beta with
  | [] => Return occupation
  | orbital_idx :: rest =>
      if decide (orbital_idx >= n_orbitals self) then
        Fail (IndexExceeds orbital_idx (n_orbitals self))
      else
        c ← getitem occupation orbital_idx;
        if decide (c = "0"%char) then
          occupation' ← setitem occupation orbital_idx "b"%char;
          process_beta self occupation' rest
        else
          c' ← getitem occupation orbital_idx;
          if decide (c' = "a"%char) then
            occupation' ← setitem occupation orbital_idx "2"%char;
            process_beta self occupation' rest
          else Fail (AlreadyBeta orbital_idx)
  end.

(** [sum(2 if x == '2' else 1 if x in ['a', 'b'] else 0 for x in
    occupation)]. *)
Definition electrons_found (occupation : list ascii) : Z :=
  Py.sum ((λ x, if decide (x = "2"%char) then 2
                else if decide (x ∈ ["a"%char; "b"%char]) then 1
                else 0) <$> occupation).

(** [CIConverter.det_to_occupation]. *)
Definition det_to_occupation (self : CIConverter) (det_alpha det_beta : list Z)
    : outcome string :=
  let occupation := Py.repeat "0"%char (n_orbitals self) in
  occupation ← process_alpha self occupation det_alpha;
  occupation ← process_beta self occupation det_beta;
  let n_electrons_found := electrons_found occupation in
  if decide (n_electrons_found ≠ n_electrons self) then
    Fail (ElectronCount (n_electrons self) n_electrons_found)
  else Return (Py.join_chars occupation).

End Conversion.

(** * Vocabulary of the proofs and of the properties *)

(** The value [_format_configuration] computes from [self.irrep_positions]. *)
Definition format (positions : list (Z * Z)) (distribution : list ascii)
    : string :=
  Py.join " "
    ((λ '(start, stop), Py.join_chars (Py.slice distribution start stop))
       <$> positions).

(** The list after the alpha loop: ['a'] at the alpha positions. *)
Definition mark_alpha (alpha_pos : list nat) (dist : list ascii) : list ascii :=
  imap (λ i c, if decide (i ∈ alpha_pos) then "a"%char else c) dist.

(** What the beta loop writes over a ['0'] or an ['a']. *)
Definition overlay (c : ascii) : ascii :=
  if decide (c = "0"%char) then "b"%char else "2"%char.

(** The list after the beta loop when it runs to its end. *)
Definition mark_beta (beta_pos : list nat) (dist : list ascii) : list ascii :=
  imap (λ i c, if decide (i ∈ beta_pos) then overlay c else c) dist.

(** The symbol of an orbital, from whether it holds an alpha and a beta
    electron. *)
Definition symbol (in_alpha in_beta : bool) : ascii :=
  match in_alpha, in_beta with
  | true, true => "2"
  | true, false => "a"
  | false, true => "b"
  | false, false => "0"
  end%char.

(** The occupation of [n] orbitals for given alpha and beta placements. *)
Definition occupation (n : nat) (alpha_pos beta_pos : list nat) : list ascii :=
  (λ i, symbol (bool_decide (i ∈ alpha_pos)) (bool_decide (i ∈ beta_pos)))
    <$> seq 0 n.

(** The set built from given lists of alpha and beta placements. *)
Definition collect (positions : list (Z * Z)) (n : nat)
    (alphas betas : list (list nat)) : gset string :=
  foldl (λ distributions alpha_pos,
           foldl (λ distributions beta_pos,
                    {[format positions (occupation n alpha_pos beta_pos)]}
                    ∪ distributions)
                 distributions betas)
        ∅ alphas.

(** The alphabet of occupations. *)
Definition is_symbol (c : ascii) : Prop :=
  c = "0"%char ∨ c = "a"%char ∨ c = "b"%char ∨ c = "2"%char.

(** The orbital holds an alpha electron: ['a'] or ['2']. *)
Definition holds_alpha (c : ascii) : Prop := c = "a"%char ∨ c = "2"%char.

(** The orbital holds a beta electron: ['b'] or ['2']. *)
Definition holds_beta (c : ascii) : Prop := c = "b"%char ∨ c = "2"%char.

#[global] Instance is_symbol_dec c : Decision (is_symbol c).
Proof. unfold is_symbol. apply _. Defined.
#[global] Instance holds_alpha_dec c : Decision (holds_alpha c).
Proof. unfold holds_alpha. apply _. Defined.
#[global] Instance holds_beta_dec c : Decision (holds_beta c).
Proof. unfold holds_beta. apply _. Defined.

(** The numbers of positions in [{a, 2}] and in [{b, 2}]. *)
Definition alpha_count (occ : list ascii) : nat := length (filter holds_alpha occ).
Definition beta_count (occ : list ascii) : nat := length (filter holds_beta occ).

(** An occupation of [n] orbitals: [n] symbols of the alphabet. *)
Definition is_occupation (n : nat) (occ : list ascii) : Prop :=
  length occ = n ∧ Forall is_symbol occ.

(** The symbol at index [i] satisfies [P]. *)
Definition holds_at (P : ascii → Prop) (occ : list ascii) (i : nat) : Prop :=
  from_option P False (occ !! i).

#[global] Instance holds_at_dec P `{!∀ c, Decision (P c)} occ i :
  Decision (holds_at P occ i).
Proof. unfold holds_at. destruct (occ !! i); simpl; apply _. Defined.

(** The indices, in increasing order, whose symbol satisfies [P]. *)
Definition indices_where (P : ascii → Prop) `{!∀ c, Decision (P c)}
    (occ : list ascii) : list nat :=
  filter (holds_at P occ) (seq 0 (length occ)).

(** The [(start, end)] pairs of consecutive groups of the given sizes,
    the first one starting at [pos]. *)
Fixpoint boundaries (pos : Z) (counts : list Z) : list (Z * Z) :=
  match counts with
  | [] => []
  | count :: counts' => (pos, pos + count) :: boundaries (pos + count) counts'
  end.

(** Consecutive pieces of [l] of the given lengths. *)
Fixpoint chunks {A} (sizes : list nat) (l : list A) : list (list A) :=
  match sizes with
  | [] => []
  | size :: sizes' => take size l :: chunks sizes' (drop size l)
  end.

(** The electrons a symbol stands for. *)
Definition symbol_weight (c : ascii) : Z :=
  if decide (c = "2"%char) then 2
  else if decide (c = "a"%char) then 1
  else if decide (c = "b"%char) then 1
  else 0.

(** Total symbol weight of a configuration string. *)
Fixpoint weight (s : string) : Z :=
  match s with
  | EmptyString => 0
  | String c s' => symbol_weight c + weight s'
  end.

(** The string with its spaces removed. *)
Fixpoint remove_spaces (s : string) : string :=
  match s with
  | EmptyString => EmptyString
  | String c s' =>
      if decide (c = " "%char) then remove_spaces s'
      else String c (remove_spaces s')
  end.

(** The pieces of the string between single spaces ([s.split(' ')]). *)
Fixpoint split_spaces (s : string) : list string :=
  match s with
  | EmptyString => [EmptyString]
  | String c s' =>
      if decide (c = " "%char) then EmptyString :: split_spaces s'
      else match split_spaces s' with
           | group :: groups => String c group :: groups
           | [] => [String c EmptyString]
           end
  end.

Definition first_char (s : string) : option ascii :=
  match s with
  | EmptyString => None
  | String c _ => Some c
  end.

Fixpoint last_char (s : string) : option ascii :=
  match s with
  | EmptyString => None
  | String c EmptyString => Some c
  | String _ s' => last_char s'
  end.

(** All characters of the string are occupation symbols: [[0ab2]*]. *)
Definition symbols_only (s : string) : Prop :=
  Forall is_symbol (list_ascii_of_string s).

(** Concatenation of strings without a separator. *)
Definition cat (parts : list string) : string := foldr String.append "" parts.

(** The sizes of the alpha and the beta placements of an instance. *)
Definition n_alpha (self : ConfigurationGenerator) : Z :=
  (spin_split (active_electrons self)).1.
Definition n_beta (self : ConfigurationGenerator) : Z :=
  (spin_split (active_electrons self)).2.

(** The exception of [combinations] for a size [r] it does not accept. *)
Definition size_error (r : Z) : exn :=
  if decide (r < - Py.ssize_t_max - 1 ∨ Py.ssize_t_max < r) then OverflowError
  else if decide (r < 0) then ValueError
  else MemoryError.

(** The outcome of [generate_configurations] on an instance: the outer
    [combinations] raises for a size it does not accept; the inner one is
    reached only when there is an alpha placement. *)
Definition generate_outcome (self : ConfigurationGenerator)
    : result (gset string) :=
  let n := n_orbitals self in
  let alphas := Py.subsequences (Py.range n) (Z.to_nat (n_alpha self)) in
  let betas := Py.subsequences (Py.range n) (Z.to_nat (n_beta self)) in
  if decide (0 ≤ n_alpha self ≤ Py.ssize_t_array_max) then
    if decide (alphas = [] ∨ n_beta self ≤ Py.ssize_t_array_max) then
      Ok (collect (irrep_positions self) (Z.to_nat n) alphas betas)
    else Raise (size_error (n_beta self))
  else Raise (size_error (n_alpha self)).

(** The line of an occupation over irreps of the given sizes: the symbols
    cut into consecutive groups of these sizes, the groups separated by
    single spaces. *)
Definition grouped_string (counts : list Z) (occ : list ascii) : string :=
  String.concat " "
    (string_of_list_ascii <$> chunks (Z.to_nat <$> counts) occ).

(** The irrep counts of an instance are all non-negative. *)
Definition counts_non_negative (specs : list (string * Z)) : Prop :=
  Forall (λ spec, 0 ≤ spec.2) specs.

(** The layout of a line over the given irreps: one group per irrep, of
    that irrep's size and made of occupation symbols, the groups joined by
    single spaces. *)
Definition grouped (specs : list (string * Z)) (s : string)
    (groups : list string) : Prop :=
  s = Py.join " " groups
  ∧ Forall2 (λ group spec,
       Z.of_nat (String.length group) = spec.2 ∧ symbols_only group)
      groups specs.

(** The layout with every group matching [[0ab2]+] and no space at either
    end of the line. *)
Definition grouped_non_empty (specs : list (string * Z)) (s : string) : Prop :=
  Z.of_nat (String.length (remove_spaces s)) = Py.sum (specs.*2)
  ∧ ∃ groups,
      grouped specs s groups
      ∧ Forall (λ group, group ≠ EmptyString) groups
      ∧ first_char s ≠ Some " "%char
      ∧ last_char s ≠ Some " "%char.

(** The number of ways to choose [k] out of [n]. *)
Fixpoint choose (n k : nat) : nat :=
  match k, n with
  | O, _ => 1
  | S _, O => 0
  | S k', S n' => choose n' k' + choose n' k
  end.

(** The strings of all pairs of placements, in the order of the loops. *)
Definition candidates (positions : list (Z * Z)) (n : nat)
    (alphas betas : list (list nat)) : list string :=
  alphas ≫= λ alpha_pos,
    (λ beta_pos, format positions (occupation n alpha_pos beta_pos)) <$> betas.

(** Alpha electrons minus beta electrons of a symbol. *)
Definition symbol_spin (c : ascii) : Z :=
  if decide (c = "a"%char) then 1
  else if decide (c = "b"%char) then -1
  else 0.

(** Number of ['a'] minus number of ['b'] in a configuration string. *)
Fixpoint spin_excess (s : string) : Z :=
  match s with
  | EmptyString => 0
  | String c s' => symbol_spin c + spin_excess s'
  end.

(** The symbol with the two spins exchanged. *)
Definition flip_symbol (c : ascii) : ascii :=
  if decide (c = "a"%char) then "b"%char
  else if decide (c = "b"%char) then "a"%char
  else c.

(** A string character by character. *)
Fixpoint map_string (f : ascii → ascii) (s : string) : string :=
  match s with
  | EmptyString => EmptyString
  | String c s' => String (f c) (map_string f s')
  end.

(** The configuration string with every ['a'] and ['b'] exchanged. *)
Definition flip_spins (s : string) : string := map_string flip_symbol s.

(** The determinant [det] passes the bound check of [det_to_occupation]
    and its indices access the orbitals [js], in this order. *)
Definition addresses (self : Conversion.CIConverter) (det : list Z)
    (js : list nat) : Prop :=
  Forall2 (λ i j,
     i < Conversion.n_orbitals self
     ∧ Conversion.position (Z.to_nat (Conversion.n_orbitals self)) i = Some j)
    det js.

(** * Lemmas *)

(** Evaluate [f <$> Some c] and the error monad, leaving [decide] alone. *)
Ltac step := cbn [fmap option_fmap option_map mbind result_bind].

(** ** Running the monad *)

Lemma run_bind {A B} (m : M A) (f : A → M B) self a :
  m self = (Ok a, self) → (m ≫= f) self = f a self.
Proof. intros Hm. unfold mbind, M_bind. by rewrite Hm. Qed.

Lemma leaves_bind {A B} (m : M A) (f : A → M B) self :
  leaves m self = self → (∀ a, leaves (f a) self = self) →
  leaves (m ≫= f) self = self.
Proof.
  unfold leaves, mbind, M_bind. intros Hm Hf.
  destruct (m self) as [[a|e] self'] eqn:E; simpl in *; subst; [apply Hf | done].
Qed.

Lemma leaves_for_in {A B} (xs : list A) (body : B → A → M B) self :
  (∀ acc x, leaves (body acc x) self = self) →
  ∀ acc, leaves (for_in xs acc body) self = self.
Proof.
  intros Hbody. induction xs as [|x xs IH]; intros acc; simpl; [done|].
  apply leaves_bind; [apply Hbody | apply IH].
Qed.

Lemma run_for_in {A B} (xs : list A) (body : B → A → M B) (f : B → A → B) self :
  (∀ acc x, x ∈ xs → body acc x self = (Ok (f acc x), self)) →
  ∀ acc, for_in xs acc body self = (Ok (foldl f acc xs), self).
Proof.
  induction xs as [|x xs IH]; intros Hbody acc; simpl; [done|].
  rewrite (run_bind _ _ _ (f acc x)) by (apply Hbody; left).
  apply IH. intros acc' y Hy. apply Hbody. by right.
Qed.

(** ** The grouping done by [_format_configuration] *)

Lemma foldl_snoc_fmap {A B} (g : A → B) (xs : list A) (acc : list B) :
  foldl (λ acc x, acc ++ [g x]) acc xs = acc ++ (g <$> xs).
Proof.
  revert acc. induction xs as [|x xs IH]; intros acc; simpl.
  - by rewrite app_nil_r.
  - by rewrite IH, <- app_assoc.
Qed.

Lemma run_format distribution self :
  _format_configuration distribution self
  = (Ok (format (irrep_positions self) distribution), self).
Proof.
  unfold _format_configuration.
  rewrite (run_bind _ _ _ (irrep_positions self)) by done.
  erewrite run_bind; [reflexivity|].
  erewrite (run_for_in _ _
    (λ result p, result ++
       [(λ '(start, stop), Py.join_chars (Py.slice distribution start stop)) p])).
  2:{ by intros acc [start stop] _. }
  by rewrite foldl_snoc_fmap.
Qed.

(** ** Combinations are the sublists of the pool *)

Lemma elem_of_subsequences {A} (pool l : list A) (r : nat) :
  l ∈ Py.subsequences pool r ↔ l `sublist_of` pool ∧ length l = r.
Proof.
  revert l r. induction pool as [|x pool IH]; intros l [|r]; simpl.
  - rewrite list_elem_of_singleton, sublist_nil_r. split; [by intros ->|tauto].
  - rewrite elem_of_nil, sublist_nil_r. split; [done|]. by intros [-> ?].
  - rewrite list_elem_of_singleton. split.
    + intros ->. split; [apply sublist_nil_l | done].
    + intros [_ Hl]. by apply nil_length_inv.
  - rewrite elem_of_app, list_elem_of_fmap, sublist_cons_r, IH. split.
    + intros [(l' & -> & Hl')|[Hsub Hlen]].
      * apply IH in Hl' as [Hsub Hlen]. simpl. split; [right; eauto | lia].
      * split; [by left | done].
    + intros [[Hsub|(l' & -> & Hsub)] Hlen].
      * by right.
      * left. exists l'. split; [done|]. apply IH. simpl in Hlen. split; [done | lia].
Qed.

Lemma filter_ext_elem_of {A} (P Q : A → Prop)
    `{!∀ x, Decision (P x), !∀ x, Decision (Q x)} (l : list A) :
  (∀ x, x ∈ l → P x ↔ Q x) → filter P l = filter Q l.
Proof.
  induction l as [|x l IH]; intros HPQ; [done|].
  rewrite !filter_cons, IH by (intros y Hy; apply HPQ; by right).
  destruct (decide (P x)) as [HP|HP], (decide (Q x)) as [HQ|HQ];
    try done; apply HPQ in HP || apply HPQ in HQ; done || left.
Qed.

Lemma filter_fmap {A B} (f : A → B) (P : B → Prop)
    `{!∀ y, Decision (P y)} (l : list A) :
  filter P (f <$> l) = f <$> filter (P ∘ f) l.
Proof.
  induction l as [|x l IH]; [done|]. rewrite fmap_cons, !filter_cons, IH.
  unfold compose. by destruct (decide (P (f x))).
Qed.

Lemma sublist_filter_elem_of (pool l : list nat) :
  NoDup pool → l `sublist_of` pool → filter (.∈ l) pool = l.
Proof.
  intros Hnd Hsub. induction Hsub as [|x l pool Hsub IH|x l pool Hsub IH].
  - done.
  - apply NoDup_cons in Hnd as [Hx Hnd].
    rewrite filter_cons_True by left. f_equal.
    etrans; [|by apply IH]. apply filter_ext_elem_of.
    intros y Hy. rewrite elem_of_cons.
    split; [|by right]. intros [->|?]; done.
  - apply NoDup_cons in Hnd as [Hx Hnd].
    rewrite filter_cons_False; [by apply IH|].
    intros Hxl. apply Hx. by eapply elem_of_sublist.
Qed.

Lemma elem_of_range (n : Z) (i : nat) : i ∈ Py.range n ↔ (i < Z.to_nat n)%nat.
Proof. unfold Py.range. rewrite elem_of_seq. lia. Qed.

(** What a tuple of [combinations(range(n), r)] looks like. *)
Lemma subsequences_range_inv (n : Z) (r : nat) (l : list nat) :
  l ∈ Py.subsequences (Py.range n) r →
  NoDup l ∧ Forall (λ i, (i < Z.to_nat n)%nat) l ∧ length l = r.
Proof.
  intros [Hsub Hlen]%elem_of_subsequences. split_and!; [| |done].
  - eapply sublist_NoDup; [apply NoDup_seq | exact Hsub].
  - apply Forall_forall. intros i Hi. apply elem_of_range.
    by eapply elem_of_sublist.
Qed.

(** ** The two placement loops in closed form *)

Lemma place_alpha_ok (dist : list ascii) (alpha_pos : list nat) :
  Forall (λ pos, (pos < length dist)%nat) alpha_pos →
  place_alpha dist alpha_pos = Ok (mark_alpha alpha_pos dist).
Proof.
  revert dist. induction alpha_pos as [|pos rest IH]; intros dist Hin;
    cbn [place_alpha].
  - f_equal. apply list_eq. intros i. unfold mark_alpha.
    rewrite list_lookup_imap. destruct (dist !! i); step; [|done].
    by rewrite decide_False by apply not_elem_of_nil.
  - apply Forall_cons in Hin as [Hpos Hin].
    unfold Py.setitem. rewrite decide_True by done. step.
    rewrite IH by (by rewrite length_insert).
    f_equal. apply list_eq. intros i. unfold mark_alpha.
    rewrite !list_lookup_imap. destruct (decide (i = pos)) as [->|Hne].
    + rewrite list_lookup_insert_eq by done.
      destruct (lookup_lt_is_Some_2 dist pos Hpos) as [c ->]. step.
      rewrite (decide_True (P := pos ∈ pos :: rest)) by left.
      by destruct (decide (pos ∈ rest)).
    + rewrite list_lookup_insert_ne by done.
      destruct (dist !! i); step; [|done]. f_equal.
      destruct (decide (i ∈ rest)) as [Hi|Hi].
      * by rewrite decide_True by (by right).
      * rewrite decide_False; [done|]. by intros [?|?]%elem_of_cons.
Qed.

Lemma place_beta_ok (dist : list ascii) (beta_pos : list nat) :
  NoDup beta_pos →
  Forall (λ pos, dist !! pos = Some "0"%char ∨ dist !! pos = Some "a"%char)
    beta_pos →
  place_beta dist beta_pos = Ok (mark_beta beta_pos dist, true).
Proof.
  revert dist. induction beta_pos as [|pos rest IH]; intros dist Hnd Hin;
    cbn [place_beta].
  - do 2 f_equal. apply list_eq. intros i. unfold mark_beta.
    rewrite list_lookup_imap. destruct (dist !! i); step; [|done].
    by rewrite decide_False by apply not_elem_of_nil.
  - apply NoDup_cons in Hnd as [Hpos Hnd].
    apply Forall_cons in Hin as [Hc Hin].
    assert (Hlen : (pos < length dist)%nat).
    { apply lookup_lt_is_Some. destruct Hc as [-> | ->]; eauto. }
    assert (Hrest : ∀ c, Forall (λ q, <[pos:=c]> dist !! q = Some "0"%char
                                   ∨ <[pos:=c]> dist !! q = Some "a"%char) rest).
    { intros c. apply Forall_forall. intros q Hq.
      rewrite list_lookup_insert_ne by (intros ->; done).
      by eapply Forall_forall in Hin. }
    assert (Hmark : ∀ c, dist !! pos = Some c →
              mark_beta rest (<[pos:=overlay c]> dist) = mark_beta (pos :: rest) dist).
    { intros c Hdc. apply list_eq. intros i. unfold mark_beta.
      rewrite !list_lookup_imap. destruct (decide (i = pos)) as [->|Hne].
      - rewrite list_lookup_insert_eq, Hdc by done. step.
        rewrite decide_False by done. by rewrite decide_True by left.
      - rewrite list_lookup_insert_ne by done.
        destruct (dist !! i); step; [|done]. f_equal.
        destruct (decide (i ∈ rest)) as [Hi|Hi].
        + by rewrite decide_True by (by right).
        + rewrite decide_False; [done|]. by intros [?|?]%elem_of_cons. }
    unfold Py.getitem, Py.setitem. rewrite decide_True by done.
    destruct Hc as [Hc|Hc]; rewrite Hc; step.
    + rewrite decide_True by done. step.
      by rewrite (IH _ Hnd (Hrest "b"%char)), <- (Hmark _ Hc).
    + rewrite decide_False by done. rewrite !decide_True by done. step.
      by rewrite (IH _ Hnd (Hrest "2"%char)), <- (Hmark _ Hc).
Qed.

(** ** Occupations *)

Lemma length_occupation n alpha_pos beta_pos :
  length (occupation n alpha_pos beta_pos) = n.
Proof. unfold occupation. by rewrite length_fmap, length_seq. Qed.

Lemma lookup_occupation n alpha_pos beta_pos i :
  (i < n)%nat →
  occupation n alpha_pos beta_pos !! i
  = Some (symbol (bool_decide (i ∈ alpha_pos)) (bool_decide (i ∈ beta_pos))).
Proof.
  intros Hi. unfold occupation. by rewrite list_lookup_fmap, lookup_seq_lt.
Qed.

Lemma lookup_mark_alpha_zeros n alpha_pos i :
  (i < n)%nat →
  mark_alpha alpha_pos (replicate n "0"%char) !! i
  = Some (symbol (bool_decide (i ∈ alpha_pos)) false).
Proof.
  intros Hi. unfold mark_alpha.
  rewrite list_lookup_imap, lookup_replicate_2 by done. step.
  by destruct (decide (i ∈ alpha_pos));
    [rewrite bool_decide_eq_true_2 | rewrite bool_decide_eq_false_2].
Qed.

Lemma mark_beta_mark_alpha n alpha_pos beta_pos :
  mark_beta beta_pos (mark_alpha alpha_pos (replicate n "0"%char))
  = occupation n alpha_pos beta_pos.
Proof.
  apply list_eq. intros i. unfold mark_beta. rewrite list_lookup_imap.
  destruct (decide (i < n)%nat) as [Hi|Hi].
  - rewrite lookup_mark_alpha_zeros, lookup_occupation by done. step. f_equal.
    destruct (decide (i ∈ beta_pos));
      [rewrite (bool_decide_eq_true_2 (i ∈ beta_pos)) by done
      |rewrite (bool_decide_eq_false_2 (i ∈ beta_pos)) by done];
      by destruct (bool_decide (i ∈ alpha_pos)).
  - rewrite (lookup_ge_None_2 (occupation _ _ _))
      by (rewrite length_occupation; lia).
    rewrite (lookup_ge_None_2 (mark_alpha _ _)); [done|].
    unfold mark_alpha. rewrite length_imap, length_replicate. lia.
Qed.

(** One pass of the inner loop body on a pair of combinations: the beta
    overlay runs to its end with [valid_config] still true. *)
Lemma build_distribution_ok (n : Z) (alpha_pos beta_pos : list nat) :
  Forall (λ i, (i < Z.to_nat n)%nat) alpha_pos →
  Forall (λ i, (i < Z.to_nat n)%nat) beta_pos →
  NoDup beta_pos →
  build_distribution n alpha_pos beta_pos
  = Ok (occupation (Z.to_nat n) alpha_pos beta_pos, true).
Proof.
  intros Ha Hb Hnd. unfold build_distribution, Py.repeat.
  rewrite place_alpha_ok by (by rewrite length_replicate). step.
  rewrite place_beta_ok, mark_beta_mark_alpha; [done..|].
  eapply Forall_impl; [exact Hb|]. intros i Hi. cbv beta.
  rewrite lookup_mark_alpha_zeros by done.
  destruct (bool_decide (i ∈ alpha_pos)); auto.
Qed.

(** ** What the two nested loops accumulate *)

Lemma elem_of_foldl_add {A} (g : A → string) (xs : list A)
    (acc : gset string) (s : string) :
  s ∈ foldl (λ acc x, {[g x]} ∪ acc) acc xs ↔ s ∈ acc ∨ ∃ x, x ∈ xs ∧ s = g x.
Proof.
  revert acc. induction xs as [|x xs IH]; intros acc; simpl.
  - split; [by left|]. intros [?|(x & []%elem_of_nil & _)]; done.
  - rewrite IH, elem_of_union, elem_of_singleton. split.
    + intros [[->|?]|(y & Hy & ->)]; [right; exists x; split; [left|done]
        | by left | right; exists y; split; [by right|done]].
    + intros [?|(y & [->|Hy]%elem_of_cons & ->)];
        [left; by right | left; by left | right; eauto].
Qed.

Lemma elem_of_collect positions n alphas betas (s : string) :
  s ∈ collect positions n alphas betas ↔
  ∃ alpha_pos beta_pos, alpha_pos ∈ alphas ∧ beta_pos ∈ betas ∧
    s = format positions (occupation n alpha_pos beta_pos).
Proof.
  unfold collect.
  assert (∀ acc : gset string,
    s ∈ foldl (λ distributions alpha_pos,
           foldl (λ distributions beta_pos,
                    {[format positions (occupation n alpha_pos beta_pos)]}
                    ∪ distributions)
                 distributions betas) acc alphas
    ↔ s ∈ acc ∨ ∃ alpha_pos beta_pos, alpha_pos ∈ alphas ∧ beta_pos ∈ betas ∧
        s = format positions (occupation n alpha_pos beta_pos)) as Hgen.
  { induction alphas as [|a alphas IH]; intros acc; simpl.
    - split; [by left|]. intros [?|(? & ? & []%elem_of_nil & _)]; done.
    - rewrite IH, (elem_of_foldl_add
        (λ beta_pos, format positions (occupation n a beta_pos))). split.
      + intros [[?|(b & Hb & ->)]|(a' & b & Ha' & Hb & ->)].
        * by left.
        * right. exists a, b. split_and!; [left|done..].
        * right. exists a', b. split_and!; [by right|done..].
      + intros [?|(a' & b & [->|Ha']%elem_of_cons & Hb & ->)].
        * left. by left.
        * left. right. eauto.
        * right. eauto 6. }
  rewrite Hgen. split; [|by right]. by intros [[]%not_elem_of_empty|?].
Qed.

(** The run of the method: the exception of a [combinations] that refuses
    its size, and otherwise the collected set; [self] is handed back as it
    was. *)
Lemma spin_split_le (active : Z) :
  (spin_split active).1 ≤ (spin_split active).2.
Proof. unfold spin_split. simpl. pose proof (Z.mod_pos_bound active 2). 
  pose proof (Z.div_mod active 2). lia. Qed.

Lemma spin_split_bounds (active : Z) :
  2 * (spin_split active).1 ≤ active < 2 * (spin_split active).1 + 2
  ∧ (spin_split active).1 + (spin_split active).2 = active.
Proof.
  unfold spin_split. cbn [fst snd].
  pose proof (Z.div_mod active 2). pose proof (Z.mod_pos_bound active 2). lia.
Qed.

Lemma combinations_ok {A} (pool : list A) (r : Z) :
  0 ≤ r ≤ Py.ssize_t_array_max →
  Py.combinations pool r = Ok (Py.subsequences pool (Z.to_nat r)).
Proof.
  intros Hr. unfold Py.combinations, Py.ssize_t_array_max, Py.ssize_t_max in *.
  rewrite decide_False by lia. rewrite decide_False by lia.
  by rewrite decide_False by lia.
Qed.

Lemma combinations_raise {A} (pool : list A) (r : Z) :
  ¬ 0 ≤ r ≤ Py.ssize_t_array_max →
  Py.combinations pool r = Raise (size_error r).
Proof.
  intros Hr.
  unfold Py.combinations, size_error, Py.ssize_t_array_max in *.
  destruct (decide (r < - Py.ssize_t_max - 1 ∨ Py.ssize_t_max < r)); [done|].
  destruct (decide (r < 0)); [done|]. by rewrite decide_True by lia.
Qed.

Lemma combinations_inv {A} (pool : list A) (r : Z) combs :
  Py.combinations pool r = Ok combs →
  0 ≤ r ≤ Py.ssize_t_array_max ∧ combs = Py.subsequences pool (Z.to_nat r).
Proof.
  intros Hc. destruct (decide (0 ≤ r ≤ Py.ssize_t_array_max)) as [Hr|Hr].
  - rewrite combinations_ok in Hc by done. by injection Hc as <-.
  - by rewrite combinations_raise in Hc.
Qed.

Lemma run_generate_outcome self :
  generate_configurations self = (generate_outcome self, self).
Proof.
  pose proof (spin_split_le (active_electrons self)) as Hle.
  unfold generate_outcome, n_alpha, n_beta.
  unfold generate_configurations, _generate_spin_distributions.
  rewrite (run_bind _ _ _ (active_electrons self)) by done.
  destruct (spin_split (active_electrons self)) as [n_alpha n_beta].
  simpl in Hle. cbn [fst snd]. cbv zeta.
  rewrite (run_bind _ _ _ (n_orbitals self)) by done.
  destruct (decide (0 ≤ n_alpha ≤ Py.ssize_t_array_max)) as [Ha|Ha]; last first.
  { unfold mbind, M_bind, lift. by rewrite combinations_raise. }
  erewrite run_bind; [|by unfold lift; rewrite combinations_ok].
  destruct (decide (Py.subsequences (Py.range (n_orbitals self))
                      (Z.to_nat n_alpha) = []
                    ∨ n_beta ≤ Py.ssize_t_array_max)) as [[Hnil|Hb]|Hb].
  - by rewrite Hnil.
  - apply (run_for_in _ _ (λ distributions alpha_pos,
      foldl (λ distributions beta_pos,
        {[format (irrep_positions self)
            (occupation (Z.to_nat (n_orbitals self)) alpha_pos beta_pos)]}
        ∪ distributions) distributions
        (Py.subsequences (Py.range (n_orbitals self)) (Z.to_nat n_beta)))).
    intros acc alpha_pos Halpha.
    rewrite (run_bind _ _ _ (n_orbitals self)) by done. cbv beta.
    erewrite run_bind; [|by unfold lift; rewrite combinations_ok by lia].
    apply run_for_in. intros acc' beta_pos Hbeta.
    apply subsequences_range_inv in Halpha as (_ & Ha' & _).
    apply subsequences_range_inv in Hbeta as (Hnd & Hb' & _).
    rewrite (run_bind _ _ _ (n_orbitals self)) by done. cbv beta.
    erewrite run_bind; [|unfold lift; by rewrite build_distribution_ok].
    cbv beta iota.
    by erewrite run_bind; [|apply run_format].
  - destruct (Py.subsequences (Py.range (n_orbitals self)) (Z.to_nat n_alpha))
      as [|alpha_pos alphas]; [by destruct Hb; left|].
    cbn [for_in]. unfold mbind at 1, M_bind at 1.
    rewrite (run_bind _ _ _ (n_orbitals self)) by done. cbv beta.
    unfold mbind, M_bind, lift. by rewrite combinations_raise by lia.
Qed.

(** The outer [combinations] refuses a size that is negative or beyond
    what it can allocate. *)
Lemma run_generate_raise self :
  ¬ 0 ≤ n_alpha self ≤ Py.ssize_t_array_max →
  generate_configurations self = (Raise (size_error (n_alpha self)), self).
Proof.
  intros Hneg. rewrite run_generate_outcome. unfold generate_outcome.
  by rewrite decide_False.
Qed.

Lemma run_generate self :
  0 ≤ n_alpha self →
  n_beta self ≤ Py.ssize_t_array_max →
  generate_configurations self
  = (Ok (collect (irrep_positions self) (Z.to_nat (n_orbitals self))
           (Py.subsequences (Py.range (n_orbitals self))
              (Z.to_nat (n_alpha self)))
           (Py.subsequences (Py.range (n_orbitals self))
              (Z.to_nat (n_beta self)))),
     self).
Proof.
  intros Hpos Hb. pose proof (spin_split_le (active_electrons self)) as Hle.
  rewrite run_generate_outcome. unfold generate_outcome.
  unfold n_alpha, n_beta in *.
  rewrite decide_True by lia. by rewrite decide_True by (by right).
Qed.

(** A call that returns has got both lists of placements. *)
Lemma run_generate_inv self configs :
  returns generate_configurations self = Ok configs →
  0 ≤ n_alpha self ≤ Py.ssize_t_array_max
  ∧ configs
    = collect (irrep_positions self) (Z.to_nat (n_orbitals self))
        (Py.subsequences (Py.range (n_orbitals self))
           (Z.to_nat (n_alpha self)))
        (Py.subsequences (Py.range (n_orbitals self))
           (Z.to_nat (n_beta self))).
Proof.
  unfold returns. rewrite run_generate_outcome. unfold generate_outcome.
  cbn [fst].
  destruct (decide (0 ≤ n_alpha self ≤ Py.ssize_t_array_max)); [|done].
  destruct (decide _); [|done]. intros [= <-]. done.
Qed.

(** ** Occupations by their symbol counts *)

Lemma symbol_is_symbol a b : is_symbol (symbol a b).
Proof. unfold is_symbol. destruct a, b; simpl; auto. Qed.

Lemma holds_alpha_symbol a b : holds_alpha (symbol a b) ↔ a = true.
Proof.
  unfold holds_alpha. destruct a, b; simpl;
    (split; [intros [H|H]; done || discriminate H
            |intros H; discriminate H || auto]).
Qed.

Lemma holds_beta_symbol a b : holds_beta (symbol a b) ↔ b = true.
Proof.
  unfold holds_beta. destruct a, b; simpl;
    (split; [intros [H|H]; done || discriminate H
            |intros H; discriminate H || auto]).
Qed.

Lemma occupation_is_occupation n alpha_pos beta_pos :
  is_occupation n (occupation n alpha_pos beta_pos).
Proof.
  split; [apply length_occupation|]. unfold occupation.
  apply Forall_fmap, Forall_forall. intros i _. apply symbol_is_symbol.
Qed.

Lemma alpha_count_occupation n alpha_pos beta_pos :
  alpha_pos `sublist_of` seq 0 n →
  alpha_count (occupation n alpha_pos beta_pos) = length alpha_pos.
Proof.
  intros Hsub. unfold alpha_count, occupation.
  rewrite filter_fmap, length_fmap. f_equal.
  etrans; [|apply (sublist_filter_elem_of (seq 0 n)); [apply NoDup_seq|done]].
  apply list_filter_iff. intros i. simpl.
  by rewrite holds_alpha_symbol, bool_decide_eq_true.
Qed.

Lemma beta_count_occupation n alpha_pos beta_pos :
  beta_pos `sublist_of` seq 0 n →
  beta_count (occupation n alpha_pos beta_pos) = length beta_pos.
Proof.
  intros Hsub. unfold beta_count, occupation.
  rewrite filter_fmap, length_fmap. f_equal.
  etrans; [|apply (sublist_filter_elem_of (seq 0 n)); [apply NoDup_seq|done]].
  apply list_filter_iff. intros i. simpl.
  by rewrite holds_beta_symbol, bool_decide_eq_true.
Qed.

Lemma indices_where_sublist P `{!∀ c, Decision (P c)} occ :
  indices_where P occ `sublist_of` seq 0 (length occ).
Proof. apply sublist_filter. Qed.

Lemma length_indices_where P `{!∀ c, Decision (P c)} occ :
  length (indices_where P occ) = length (filter P occ).
Proof.
  unfold indices_where. induction occ as [|c occ IH] using rev_ind; [done|].
  rewrite length_app. simpl. rewrite Nat.add_1_r, seq_S, !filter_app, !length_app.
  simpl. f_equal.
  - rewrite <- IH. f_equal. apply filter_ext_elem_of. intros i Hi.
    apply elem_of_seq in Hi. unfold holds_at. by rewrite lookup_app_l by lia.
  - rewrite !filter_cons, !filter_nil.
    assert (holds_at P (occ ++ [c]) (length occ) ↔ P c) as Hc.
    { unfold holds_at. by rewrite list_lookup_middle. }
    destruct (decide (P c)), (decide (holds_at P (occ ++ [c]) (length occ)));
      tauto || done.
Qed.

Lemma elem_of_indices_where P `{!∀ c, Decision (P c)} occ i c :
  occ !! i = Some c → i ∈ indices_where P occ ↔ P c.
Proof.
  intros Hi. unfold indices_where.
  rewrite list_elem_of_filter, elem_of_seq. unfold holds_at. rewrite Hi. simpl.
  apply lookup_lt_Some in Hi. split; [tauto|]. intros; split; [done|lia].
Qed.

(** Every occupation is the one built from its own alpha and beta
    positions. *)
Lemma occupation_indices_where occ :
  Forall is_symbol occ →
  occupation (length occ) (indices_where holds_alpha occ)
    (indices_where holds_beta occ) = occ.
Proof.
  intros Hsym. apply list_eq. intros i.
  destruct (occ !! i) as [c|] eqn:Hi.
  - rewrite lookup_occupation by (by eapply lookup_lt_Some). f_equal.
    assert (is_symbol c) as Hc by (by eapply Forall_lookup_1).
    pose proof (elem_of_indices_where holds_alpha occ i c Hi) as Ha.
    pose proof (elem_of_indices_where holds_beta occ i c Hi) as Hb.
    destruct Hc as [-> | [-> | [-> | ->]]].
    + rewrite !bool_decide_eq_false_2; [done|..]; rewrite ?Ha, ?Hb;
        unfold holds_alpha, holds_beta; intros [|]; done.
    + rewrite bool_decide_eq_true_2, bool_decide_eq_false_2; [done|..];
        rewrite ?Ha, ?Hb; unfold holds_alpha, holds_beta; [intros [|]; done|auto].
    + rewrite bool_decide_eq_false_2, bool_decide_eq_true_2; [done|..];
        rewrite ?Ha, ?Hb; unfold holds_alpha, holds_beta; [auto|intros [|]; done].
    + rewrite !bool_decide_eq_true_2; [done|..]; rewrite ?Ha, ?Hb;
        unfold holds_alpha, holds_beta; auto.
  - apply lookup_ge_None_2. rewrite length_occupation.
    by apply lookup_ge_None_1.
Qed.

(** The set the loops collect, by occupations instead of placements. *)
Lemma elem_of_collect_occupation positions (n ka kb : nat) (s : string) :
  s ∈ collect positions n (Py.subsequences (seq 0 n) ka)
        (Py.subsequences (seq 0 n) kb) ↔
  ∃ occ, is_occupation n occ ∧ alpha_count occ = ka ∧ beta_count occ = kb ∧
    s = format positions occ.
Proof.
  rewrite elem_of_collect. split.
  - intros (alpha_pos & beta_pos & Ha & Hb & ->).
    apply elem_of_subsequences in Ha as [Ha <-].
    apply elem_of_subsequences in Hb as [Hb <-].
    exists (occupation n alpha_pos beta_pos). split_and!.
    + apply occupation_is_occupation.
    + by apply alpha_count_occupation.
    + by apply beta_count_occupation.
    + done.
  - intros (occ & [<- Hsym] & <- & <- & ->).
    exists (indices_where holds_alpha occ), (indices_where holds_beta occ).
    split_and!.
    + apply elem_of_subsequences. split;
        [apply indices_where_sublist | apply length_indices_where].
    + apply elem_of_subsequences. split;
        [apply indices_where_sublist | apply length_indices_where].
    + by rewrite occupation_indices_where.
Qed.

(** ** The fields set by [__init__] *)

Lemma foldl_add_acc (acc : Z) (counts : list Z) :
  foldl Z.add acc counts = acc + Py.sum counts.
Proof.
  unfold Py.sum. revert acc.
  induction counts as [|c counts IH]; intros acc; simpl; [lia|].
  rewrite (IH (acc + c)), (IH (0 + c)). lia.
Qed.

Lemma sum_cons (count : Z) (counts : list Z) :
  Py.sum (count :: counts) = count + Py.sum counts.
Proof. unfold Py.sum at 1. simpl. apply foldl_add_acc. Qed.

Lemma sum_nonneg (counts : list Z) :
  Forall (λ count, 0 ≤ count) counts → 0 ≤ Py.sum counts.
Proof.
  induction 1 as [|c counts Hc _ IH]; [done|]. rewrite sum_cons. lia.
Qed.

Lemma init_positions_loop (specs : list (string * Z)) (acc : list (Z * Z))
    (pos : Z) :
  foldl (λ '(irrep_positions, pos) '(irrep, count),
           (irrep_positions ++ [(pos, pos + count)], pos + count))
        (acc, pos) specs
  = (acc ++ boundaries pos (specs.*2), pos + Py.sum (specs.*2)).
Proof.
  revert acc pos. induction specs as [|[irrep count] specs IH]; intros acc pos.
  - simpl. by rewrite app_nil_r, Z.add_0_r.
  - cbn [foldl fmap list_fmap snd boundaries]. rewrite IH, sum_cons.
    by rewrite <- app_assoc, Z.add_assoc.
Qed.

Lemma init_fields (te fc : Z) (specs : list (string * Z)) :
  __init__ te fc specs
  = {| total_electrons := te;
       active_electrons := te - fc;
       frozen_core := fc;
       irrep_specs := specs;
       n_orbitals := Py.sum (specs.*2);
       irrep_positions := boundaries 0 (specs.*2) |}.
Proof. unfold __init__. by rewrite init_positions_loop. Qed.

(** ** Formatting along non-negative group sizes *)

Lemma slice_in_range {A} (l : list A) (start stop : Z) :
  0 ≤ start → start ≤ stop → stop ≤ Z.of_nat (length l) →
  Py.slice l start stop
  = take (Z.to_nat (stop - start)) (drop (Z.to_nat start) l).
Proof.
  intros H0 Hle Hlen. unfold Py.slice, Py.slice_index.
  rewrite !decide_False by lia. by rewrite !Z.min_l by lia.
Qed.

Lemma slices_boundaries {A} (counts : list Z) (pos : Z) (l : list A) :
  Forall (λ count, 0 ≤ count) counts →
  0 ≤ pos → pos + Py.sum counts ≤ Z.of_nat (length l) →
  (λ '(start, stop), Py.slice l start stop) <$> boundaries pos counts
  = chunks (Z.to_nat <$> counts) (drop (Z.to_nat pos) l).
Proof.
  intros Hcounts. revert pos.
  induction Hcounts as [|count counts Hc Hcounts IH]; intros pos Hpos Hlen;
    [done|].
  rewrite sum_cons in Hlen. pose proof (sum_nonneg _ Hcounts).
  cbn [boundaries fmap list_fmap chunks]. f_equal.
  - rewrite slice_in_range by lia. do 2 f_equal. lia.
  - rewrite IH by lia. rewrite drop_drop. do 2 f_equal. lia.
Qed.

Lemma concat_chunks {A} (sizes : list nat) (l : list A) :
  length l = sum_list sizes → concat (chunks sizes l) = l.
Proof.
  revert l. induction sizes as [|size sizes IH]; intros l Hlen; simpl in *.
  - symmetry. by apply nil_length_inv.
  - rewrite IH by (rewrite length_drop; lia). apply take_drop.
Qed.

Lemma length_chunks {A} (sizes : list nat) (l : list A) :
  (sum_list sizes ≤ length l)%nat →
  Forall2 (λ group size, length group = size) (chunks sizes l) sizes.
Proof.
  revert l. induction sizes as [|size sizes IH]; intros l Hlen; simpl in *;
    constructor.
  - rewrite length_take. lia.
  - apply IH. rewrite length_drop. lia.
Qed.

Lemma Forall_chunks {A} (P : A → Prop) (sizes : list nat) (l : list A) :
  Forall P l → Forall (Forall P) (chunks sizes l).
Proof.
  revert l. induction sizes as [|size sizes IH]; intros l Hl; simpl;
    constructor.
  - by apply Forall_take.
  - by apply IH, Forall_drop.
Qed.

Lemma sum_list_to_nat (counts : list Z) :
  Forall (λ count, 0 ≤ count) counts →
  sum_list (Z.to_nat <$> counts) = Z.to_nat (Py.sum counts).
Proof.
  intros Hcounts. induction Hcounts as [|count counts Hc Hcounts IH]; [done|].
  pose proof (sum_nonneg _ Hcounts).
  rewrite sum_cons. cbn [fmap list_fmap sum_list sum_list_with id].
  rewrite IH. lia.
Qed.

(** With non-negative irrep counts the formatted string is the occupation
    cut into consecutive groups of those sizes. *)
Lemma format_boundaries (counts : list Z) (occ : list ascii) :
  Forall (λ count, 0 ≤ count) counts →
  length occ = Z.to_nat (Py.sum counts) →
  format (boundaries 0 counts) occ
  = Py.join " " (Py.join_chars <$> chunks (Z.to_nat <$> counts) occ).
Proof.
  intros Hcounts Hlen. pose proof (sum_nonneg _ Hcounts). unfold format.
  f_equal. pose proof (slices_boundaries counts 0 occ Hcounts) as Hs.
  change (drop (Z.to_nat 0) occ) with occ in Hs. rewrite <- Hs by lia.
  rewrite <- list_fmap_compose. apply list_fmap_ext. by intros _ [start stop] _.
Qed.

(** ** Reading a configuration string *)

Lemma join_cons_cons sep (x y : string) (parts : list string) :
  Py.join sep (x :: y :: parts) = x +:+ sep +:+ Py.join sep (y :: parts).
Proof. done. Qed.

Lemma weight_app (s t : string) : weight (s +:+ t) = weight s + weight t.
Proof. induction s as [|c s IH]; simpl; [done|]. rewrite IH. lia. Qed.

Lemma weight_join (parts : list string) :
  weight (Py.join " " parts) = weight (cat parts).
Proof.
  induction parts as [|x [|y parts] IH]; [done| |].
  - simpl. by rewrite weight_app, Z.add_0_r.
  - rewrite join_cons_cons, !weight_app, IH. cbn [cat foldr].
    rewrite !weight_app. change (weight " ") with 0. lia.
Qed.

Lemma join_chars_app (l k : list ascii) :
  Py.join_chars (l ++ k) = Py.join_chars l +:+ Py.join_chars k.
Proof.
  unfold Py.join_chars. induction l as [|c l IH]; simpl; [done|]. by rewrite IH.
Qed.

Lemma cat_join_chars (groups : list (list ascii)) :
  cat (Py.join_chars <$> groups) = Py.join_chars (concat groups).
Proof.
  induction groups as [|group groups IH]; [done|].
  cbn [fmap list_fmap cat foldr concat]. fold (cat (Py.join_chars <$> groups)).
  by rewrite IH, join_chars_app.
Qed.

Lemma symbol_weight_holds (c : ascii) :
  symbol_weight c
  = (if decide (holds_alpha c) then 1 else 0)
    + (if decide (holds_beta c) then 1 else 0).
Proof.
  unfold symbol_weight.
  destruct (decide (c = "2"%char)) as [->|H2]; [reflexivity|].
  destruct (decide (c = "a"%char)) as [->|Ha]; [reflexivity|].
  destruct (decide (c = "b"%char)) as [->|Hb]; [reflexivity|].
  rewrite (decide_False (P := holds_alpha c)) by (unfold holds_alpha; tauto).
  by rewrite (decide_False (P := holds_beta c)) by (unfold holds_beta; tauto).
Qed.

Lemma weight_join_chars (occ : list ascii) :
  weight (Py.join_chars occ)
  = Z.of_nat (alpha_count occ) + Z.of_nat (beta_count occ).
Proof.
  unfold alpha_count, beta_count. induction occ as [|c occ IH]; [done|].
  cbn [Py.join_chars string_of_list_ascii weight].
  fold (Py.join_chars occ). rewrite IH, symbol_weight_holds, !filter_cons.
  destruct (decide (holds_alpha c)), (decide (holds_beta c)); simpl; lia.
Qed.

Lemma symbol_not_space (c : ascii) : is_symbol c → c ≠ " "%char.
Proof. by intros [-> | [-> | [-> | ->]]]. Qed.

Lemma symbols_only_cons (c : ascii) (s : string) :
  symbols_only (String c s) ↔ is_symbol c ∧ symbols_only s.
Proof. apply Forall_cons. Qed.

Lemma symbols_only_join_chars (chars : list ascii) :
  symbols_only (Py.join_chars chars) ↔ Forall is_symbol chars.
Proof.
  unfold symbols_only, Py.join_chars.
  by rewrite list_ascii_of_string_of_list_ascii.
Qed.

Lemma length_join_chars (chars : list ascii) :
  String.length (Py.join_chars chars) = length chars.
Proof. induction chars as [|c chars IH]; simpl; [done|]. by rewrite IH. Qed.

Lemma remove_spaces_app (s t : string) :
  remove_spaces (s +:+ t) = remove_spaces s +:+ remove_spaces t.
Proof.
  induction s as [|c s IH]; simpl; [done|]. rewrite IH. by case_decide.
Qed.

Lemma remove_spaces_symbols (s : string) : symbols_only s → remove_spaces s = s.
Proof.
  induction s as [|c s IH]; [done|]. intros [Hc Hs]%symbols_only_cons. simpl.
  rewrite decide_False by (by apply symbol_not_space). by rewrite IH.
Qed.

Lemma append_empty_r (s : string) : s +:+ "" = s.
Proof.
  induction s as [|c s IH]; [done|].
  change (String c (s +:+ "") = String c s). by rewrite IH.
Qed.

Lemma remove_spaces_join (groups : list string) :
  Forall symbols_only groups → remove_spaces (Py.join " " groups) = cat groups.
Proof.
  induction groups as [|x [|y groups] IH]; intros Hsym; [done| |].
  - apply Forall_cons in Hsym as [Hx _]. simpl.
    by rewrite remove_spaces_symbols, append_empty_r.
  - apply Forall_cons in Hsym as [Hx Hsym].
    rewrite join_cons_cons, !remove_spaces_app, IH by done.
    by rewrite remove_spaces_symbols by done.
Qed.

Lemma split_spaces_symbols (group : string) :
  symbols_only group → split_spaces group = [group].
Proof.
  induction group as [|c group IH]; [done|].
  intros [Hc Hs]%symbols_only_cons. simpl.
  rewrite decide_False by (by apply symbol_not_space). by rewrite IH.
Qed.

Lemma split_spaces_app (group rest : string) :
  symbols_only group →
  split_spaces (group +:+ " " +:+ rest) = group :: split_spaces rest.
Proof.
  induction group as [|c group IH]; [done|].
  intros [Hc Hs]%symbols_only_cons. simpl.
  rewrite decide_False by (by apply symbol_not_space).
  simpl in IH. by rewrite IH.
Qed.

(** Splitting at the spaces gives back the groups that were joined. *)
Lemma split_spaces_join (groups : list string) :
  groups ≠ [] → Forall symbols_only groups →
  split_spaces (Py.join " " groups) = groups.
Proof.
  induction groups as [|x [|y groups] IH]; intros Hne Hsym; [done| |].
  - apply Forall_cons in Hsym as [Hx _]. by apply split_spaces_symbols.
  - apply Forall_cons in Hsym as [Hx Hsym].
    rewrite join_cons_cons, split_spaces_app by done. f_equal. by apply IH.
Qed.

Lemma first_char_app (s t : string) :
  s ≠ EmptyString → first_char (s +:+ t) = first_char s.
Proof. by destruct s. Qed.

Lemma last_char_app (s t : string) :
  t ≠ EmptyString → last_char (s +:+ t) = last_char t.
Proof.
  intros Ht. induction s as [|c s IH]; [done|].
  change (last_char (String c (s +:+ t)) = last_char t).
  assert (s +:+ t ≠ EmptyString) as Hne by (by destruct s).
  destruct (s +:+ t); [done | exact IH].
Qed.

Lemma first_char_symbol (s : string) (c : ascii) :
  symbols_only s → first_char s = Some c → is_symbol c.
Proof.
  destruct s; [done|]. intros [Hc _]%symbols_only_cons. simpl. congruence.
Qed.

Lemma last_char_symbol (s : string) (c : ascii) :
  symbols_only s → last_char s = Some c → is_symbol c.
Proof.
  induction s as [|c' s IH]; [done|]. intros [Hc Hs]%symbols_only_cons.
  destruct s; [simpl; congruence | by apply IH].
Qed.

Lemma join_nonempty (x : string) (groups : list string) :
  x ≠ EmptyString → Py.join " " (x :: groups) ≠ EmptyString.
Proof. destruct x; [done|]. by destruct groups. Qed.

(** With non-empty groups of symbols the joined line neither starts nor
    ends with a space. *)
Lemma join_no_outer_space (groups : list string) :
  Forall (λ group, group ≠ EmptyString ∧ symbols_only group) groups →
  first_char (Py.join " " groups) ≠ Some " "%char ∧
  last_char (Py.join " " groups) ≠ Some " "%char.
Proof.
  induction groups as [|x [|y groups] IH]; intros Hg; [done| |].
  - apply Forall_cons in Hg as [[_ Hx] _]. simpl. split; intros Hc.
    + by apply (symbol_not_space _ (first_char_symbol _ _ Hx Hc)).
    + by apply (symbol_not_space _ (last_char_symbol _ _ Hx Hc)).
  - apply Forall_cons in Hg as [[Hne Hx] Hg]. rewrite join_cons_cons. split.
    + rewrite first_char_app by done. intros Hc.
      by apply (symbol_not_space _ (first_char_symbol _ _ Hx Hc)).
    + rewrite !last_char_app; [by apply IH| |done].
      apply join_nonempty. by apply Forall_cons in Hg as [[? _] _].
Qed.

(** * Properties of [generate_configurations] *)

(** ** Worked runs *)

Example scenario_three_electrons :
  returns generate_configurations (__init__ 3 0 [("A", 2); ("B", 1)])
  = Ok {[ "ab b"; "2b 0"; "20 b"; "ba b"; "b2 0"; "bb a"; "b0 2"; "02 b";
          "0b 2" ]}.
Proof. vm_compute. reflexivity. Qed.

Example scenario_frozen_core :
  returns generate_configurations (__init__ 4 2 [("Ag", 1); ("B3u", 1)])
  = Ok {[ "2 0"; "0 2"; "a b"; "b a" ]}.
Proof. vm_compute. reflexivity. Qed.

(** C4: two electrons over one irrep of two orbitals give exactly the
    four strings 20, 02, ab, ba; over two irreps of one orbital each they
    give the same four occupations with a space between the groups. *)
Theorem two_electrons_two_orbitals :
  returns generate_configurations (__init__ 2 0 [("A", 2)])
  = Ok {[ "20"; "02"; "ab"; "ba" ]}
  ∧ returns generate_configurations (__init__ 2 0 [("A", 1); ("B", 1)])
    = Ok {[ "2 0"; "0 2"; "a b"; "b a" ]}.
Proof. split; vm_compute; reflexivity. Qed.

(** C8: alpha gets the floor half of the active electrons and beta the
    rest, so alpha is at most beta when the number is odd. *)
Theorem spin_split_floor_half (active : Z) :
  spin_split active = (active `div` 2, active - active `div` 2)
  ∧ 2 * (spin_split active).1 ≤ active < 2 * (spin_split active).1 + 2
  ∧ (spin_split active).1 + (spin_split active).2 = active
  ∧ (Z.odd active = true →
     (spin_split active).1 ≤ (spin_split active).2
     ∧ (spin_split active).2 = (spin_split active).1 + 1).
Proof.
  unfold spin_split. cbn [fst snd].
  pose proof (Z.div_mod active 2) as Hdm.
  pose proof (Z.mod_pos_bound active 2) as Hmod.
  split_and!; [done|lia|lia|lia|].
  intros Hodd. rewrite Zodd_mod in Hodd. apply Z.eqb_eq in Hodd. lia.
Qed.

Lemma spin_split_floor_half_witness :
  (spin_split 3).1 ≤ (spin_split 3).2 ∧ (spin_split 3).2 = (spin_split 3).1 + 1.
Proof. apply (spin_split_floor_half 3). reflexivity. Defined.

(** C10: with more frozen-core electrons than electrons the call raises
    instead of returning a set: [n_alpha] is negative and the outer
    [combinations] refuses it, with [ValueError] when [n_alpha] fits a
    [Py_ssize_t] and with [OverflowError] when it does not. *)
Theorem frozen_core_above_total_raises (te fc : Z) (specs : list (string * Z)) :
  te < fc →
  returns generate_configurations (__init__ te fc specs)
  = Raise (if decide (- Py.ssize_t_max - 1 ≤ (te - fc) `div` 2)
           then ValueError else OverflowError).
Proof.
  intros Hlt. unfold returns.
  assert ((te - fc) `div` 2 < 0) as Hneg
    by (apply Z.div_lt_upper_bound; lia).
  rewrite run_generate_raise;
    unfold n_alpha; rewrite init_fields; unfold spin_split;
    cbn [active_electrons fst]; [|lia].
  f_equal. unfold size_error, Py.ssize_t_max in *.
  destruct (decide (_ ≤ _)).
  - rewrite decide_False by lia. by rewrite decide_True by lia.
  - by rewrite decide_True by lia.
Qed.

Lemma frozen_core_above_total_raises_witness :
  returns generate_configurations (__init__ 1 2 [("A", 1); ("B", 1)])
  = Raise ValueError.
Proof.
  apply (frozen_core_above_total_raises 1 2 [("A", 1); ("B", 1)]). lia.
Defined.

(** The same call with a frozen core beyond the reach of a [Py_ssize_t]. *)
Example frozen_core_huge_overflows :
  returns generate_configurations
    (__init__ 0 36893488147419103232 [("A", 1); ("B", 1)])
  = Raise OverflowError.
Proof. vm_compute. reflexivity. Qed.

(** C5: for any pair of tuples taken from [combinations] over the orbital
    indices, the beta loop never meets a ['b'] (or any symbol other than
    ['0'] and ['a']): it ends with [valid_config] true, so no pair is
    dropped. *)
Theorem overlay_never_invalid (n r_alpha r_beta : Z)
    (alphas betas : list (list nat)) (alpha_pos beta_pos : list nat) :
  Py.combinations (Py.range n) r_alpha = Ok alphas →
  Py.combinations (Py.range n) r_beta = Ok betas →
  alpha_pos ∈ alphas → beta_pos ∈ betas →
  ∃ dist, build_distribution n alpha_pos beta_pos = Ok (dist, true).
Proof.
  intros [_ ->]%combinations_inv [_ ->]%combinations_inv Hia Hib.
  apply subsequences_range_inv in Hia as (_ & Hia & _).
  apply subsequences_range_inv in Hib as (Hnd & Hib & _).
  eexists. by apply build_distribution_ok.
Qed.

Lemma overlay_never_invalid_witness :
  ∃ dist, build_distribution 3 [0; 2]%nat [1; 2]%nat = Ok (dist, true).
Proof.
  apply (overlay_never_invalid 3 2 2
           (Py.subsequences (Py.range 3) 2) (Py.subsequences (Py.range 3) 2));
    [reflexivity | reflexivity | | ]; vm_compute; repeat constructor.
Defined.

Lemma leaves_format distribution self :
  leaves (_format_configuration distribution) self = self.
Proof. unfold leaves. by rewrite run_format. Qed.

Lemma leaves_generate self : leaves generate_configurations self = self.
Proof.
  unfold generate_configurations, _generate_spin_distributions.
  apply leaves_bind; [done|]. intros active.
  destruct (spin_split active) as [r_alpha r_beta].
  apply leaves_bind; [done|]. intros n.
  apply leaves_bind; [done|]. intros alphas.
  apply leaves_for_in. intros distributions alpha_pos.
  apply leaves_bind; [done|]. intros n'.
  apply leaves_bind; [done|]. intros betas.
  apply leaves_for_in. intros distributions' beta_pos.
  apply leaves_bind; [done|]. intros n''.
  apply leaves_bind; [done|]. intros [dist [|]]; [|done].
  apply leaves_bind; [apply leaves_format | done].
Qed.

(** C9: a call leaves every field of the instance as it was, whether it
    returns or raises, and a second call on the same instance gives the
    same outcome as the first. *)
Theorem generate_configurations_pure (self : ConfigurationGenerator) :
  let self' := leaves generate_configurations self in
  total_electrons self' = total_electrons self
  ∧ frozen_core self' = frozen_core self
  ∧ active_electrons self' = active_electrons self
  ∧ irrep_specs self' = irrep_specs self
  ∧ n_orbitals self' = n_orbitals self
  ∧ irrep_positions self' = irrep_positions self
  ∧ returns generate_configurations self'
    = returns generate_configurations self.
Proof. cbv zeta. by rewrite leaves_generate. Qed.

(** ** The result set *)

Lemma returns_format occ self (s : string) :
  returns (_format_configuration occ) self = Ok s
  ↔ s = format (irrep_positions self) occ.
Proof.
  unfold returns. rewrite run_format. cbn [fst].
  split; [by intros [= ->] | by intros ->].
Qed.

Lemma sublist_range_inv (n : Z) (l : list nat) :
  l `sublist_of` Py.range n →
  NoDup l ∧ Forall (λ i, (i < Z.to_nat n)%nat) l.
Proof.
  intros Hsub.
  destruct (subsequences_range_inv n (length l) l) as (? & ? & _); [|done].
  by apply elem_of_subsequences.
Qed.

(** The members of the collected set: the formatted occupations with
    [n_alpha] alpha and [n_beta] beta electrons, which are also the strings
    built from the pairs of placements. *)
Lemma collect_members self :
  0 ≤ n_alpha self →
  let configs :=
    collect (irrep_positions self) (Z.to_nat (n_orbitals self))
      (Py.subsequences (Py.range (n_orbitals self)) (Z.to_nat (n_alpha self)))
      (Py.subsequences (Py.range (n_orbitals self)) (Z.to_nat (n_beta self))) in
  (∀ s, s ∈ configs ↔
     ∃ alpha_pos beta_pos occ,
       alpha_pos `sublist_of` Py.range (n_orbitals self)
       ∧ Z.of_nat (length alpha_pos) = n_alpha self
       ∧ beta_pos `sublist_of` Py.range (n_orbitals self)
       ∧ Z.of_nat (length beta_pos) = n_beta self
       ∧ build_distribution (n_orbitals self) alpha_pos beta_pos
         = Ok (occ, true)
       ∧ returns (_format_configuration occ) self = Ok s)
  ∧ (∀ s, s ∈ configs ↔
       ∃ occ,
         is_occupation (Z.to_nat (n_orbitals self)) occ
         ∧ Z.of_nat (alpha_count occ) = n_alpha self
         ∧ Z.of_nat (beta_count occ) = n_beta self
         ∧ returns (_format_configuration occ) self = Ok s).
Proof.
  intros Hpos configs. unfold configs. clear configs.
  pose proof (spin_split_le (active_electrons self)) as Hle.
  fold (n_alpha self) (n_beta self) in Hle.
  split; intros s.
  - rewrite elem_of_collect. split.
    + intros (alpha_pos & beta_pos & Ha & Hb & ->).
      apply elem_of_subsequences in Ha as [Ha Hla].
      apply elem_of_subsequences in Hb as [Hb Hlb].
      destruct (sublist_range_inv _ _ Ha) as [_ Hra].
      destruct (sublist_range_inv _ _ Hb) as [Hnd Hrb].
      exists alpha_pos, beta_pos, (occupation (Z.to_nat (n_orbitals self))
                                     alpha_pos beta_pos).
      split_and!; [done|lia|done|lia| |].
      * by apply build_distribution_ok.
      * by apply returns_format.
    + intros (alpha_pos & beta_pos & occ & Ha & Hla & Hb & Hlb & Hocc & Hs).
      destruct (sublist_range_inv _ _ Ha) as [_ Hra].
      destruct (sublist_range_inv _ _ Hb) as [Hnd Hrb].
      rewrite build_distribution_ok in Hocc by done. injection Hocc as <-.
      apply returns_format in Hs as ->.
      exists alpha_pos, beta_pos.
      split_and!; [apply elem_of_subsequences..|done]; (split; [done|lia]).
  - unfold Py.range. rewrite elem_of_collect_occupation.
    split; intros (occ & Hocc & Ha & Hb & Hs); exists occ;
      (split_and!; [done|lia|lia|by apply returns_format]).
Qed.

(** A call that returns: [n_alpha] is not negative, and the set returned
    has the members above. *)
Lemma generate_returned self (configs : gset string) :
  returns generate_configurations self = Ok configs →
  0 ≤ n_alpha self
  ∧ (∀ s, s ∈ configs ↔
       ∃ alpha_pos beta_pos occ,
         alpha_pos `sublist_of` Py.range (n_orbitals self)
         ∧ Z.of_nat (length alpha_pos) = n_alpha self
         ∧ beta_pos `sublist_of` Py.range (n_orbitals self)
         ∧ Z.of_nat (length beta_pos) = n_beta self
         ∧ build_distribution (n_orbitals self) alpha_pos beta_pos
           = Ok (occ, true)
         ∧ returns (_format_configuration occ) self = Ok s)
  ∧ (∀ s, s ∈ configs ↔
       ∃ occ,
         is_occupation (Z.to_nat (n_orbitals self)) occ
         ∧ Z.of_nat (alpha_count occ) = n_alpha self
         ∧ Z.of_nat (beta_count occ) = n_beta self
         ∧ returns (_format_configuration occ) self = Ok s).
Proof.
  intros [[Hpos _] ->]%run_generate_inv.
  split; [done|]. by apply collect_members.
Qed.

(** The call on an instance whose placement sizes [combinations] accepts:
    it returns. *)
Lemma generate_returns self :
  0 ≤ n_alpha self → n_beta self ≤ Py.ssize_t_array_max →
  ∃ configs : gset string,
    returns generate_configurations self = Ok configs.
Proof.
  intros Hpos Hb. eexists. unfold returns. by rewrite run_generate.
Qed.

Lemma counts_non_negative_snd specs :
  counts_non_negative specs → Forall (λ count, 0 ≤ count) (specs.*2).
Proof. intros H. by apply Forall_fmap. Qed.

(** With non-negative counts, a formatted occupation is its groups, one
    per irrep and of that irrep's size, joined by single spaces. *)
Lemma format_groups (specs : list (string * Z)) (occ : list ascii) :
  counts_non_negative specs →
  is_occupation (Z.to_nat (Py.sum (specs.*2))) occ →
  ∃ groups : list string,
    format (boundaries 0 (specs.*2)) occ = Py.join " " groups
    ∧ cat groups = Py.join_chars occ
    ∧ Forall2 (λ group spec,
         Z.of_nat (String.length group) = spec.2 ∧ symbols_only group)
        groups specs.
Proof.
  intros Hcounts%counts_non_negative_snd [Hlen Hsym].
  exists (Py.join_chars <$> chunks (Z.to_nat <$> specs.*2) occ).
  assert (length occ = sum_list (Z.to_nat <$> specs.*2)) as Hsum
    by (by rewrite sum_list_to_nat).
  split_and!.
  - by apply format_boundaries.
  - by rewrite cat_join_chars, concat_chunks.
  - apply Forall2_fmap_l.
    pose proof (length_chunks (Z.to_nat <$> specs.*2) occ) as Hl.
    rewrite Hsum in Hl. specialize (Hl (reflexivity _)).
    pose proof (Forall_chunks is_symbol (Z.to_nat <$> specs.*2) occ Hsym) as Hs.
    revert Hl Hs Hcounts. clear.
    generalize (chunks (Z.to_nat <$> specs.*2) occ) as groups.
    induction specs as [|[irrep count] specs IH]; intros groups Hl Hs Hcounts.
    + apply Forall2_nil_inv_r in Hl as ->. constructor.
    + cbn [fmap list_fmap snd] in Hl, Hcounts.
      apply Forall2_cons_inv_r in Hl as (group & groups' & Hg & Hl & ->).
      apply Forall_cons in Hs as [Hs Hs'].
      apply Forall_cons in Hcounts as [Hc Hcounts].
      constructor; [|by apply IH]. unfold compose. cbn [snd]. split.
      * rewrite length_join_chars. lia.
      * by apply symbols_only_join_chars.
Qed.

(** With non-negative counts two different occupations are formatted to
    different strings: the set drops nothing but true repeats. *)
Lemma format_inj (specs : list (string * Z)) (occ occ' : list ascii) :
  counts_non_negative specs →
  is_occupation (Z.to_nat (Py.sum (specs.*2))) occ →
  is_occupation (Z.to_nat (Py.sum (specs.*2))) occ' →
  format (boundaries 0 (specs.*2)) occ = format (boundaries 0 (specs.*2)) occ' →
  occ = occ'.
Proof.
  intros Hcounts Hocc Hocc' Heq.
  destruct (format_groups specs occ Hcounts Hocc) as (groups & Hf & Hcat & Hg).
  destruct (format_groups specs occ' Hcounts Hocc') as (groups' & Hf' & Hcat' & Hg').
  assert (Forall symbols_only groups) as Hsym
    by (eapply Forall2_Forall_l; [exact Hg|]; apply Forall_true; tauto).
  assert (Forall symbols_only groups') as Hsym'
    by (eapply Forall2_Forall_l; [exact Hg'|]; apply Forall_true; tauto).
  rewrite Hf, Hf' in Heq. apply (f_equal remove_spaces) in Heq.
  rewrite !remove_spaces_join, Hcat, Hcat' in Heq by done.
  unfold Py.join_chars in Heq.
  by rewrite <- (list_ascii_of_string_of_list_ascii occ), Heq,
    list_ascii_of_string_of_list_ascii.
Qed.

(** ** Pairs of placements and their strings *)

Lemma length_subsequences {A} (pool : list A) (r : nat) :
  length (Py.subsequences pool r) = choose (length pool) r.
Proof.
  revert r. induction pool as [|x pool IH]; intros [|r]; simpl; try done.
  by rewrite length_app, length_fmap, !IH.
Qed.

Lemma NoDup_subsequences {A} (pool : list A) (r : nat) :
  NoDup pool → NoDup (Py.subsequences pool r).
Proof.
  intros Hnd. revert r.
  induction Hnd as [|x pool Hx Hnd IH]; intros [|r]; simpl;
    try apply NoDup_singleton; [apply NoDup_nil_2|].
  apply NoDup_app. split_and!.
  - apply NoDup_fmap_2; [|apply IH]. by intros l k [= ->].
  - intros l (l' & -> & _)%list_elem_of_fmap [Hsub _]%elem_of_subsequences.
    apply Hx. eapply elem_of_sublist; [|exact Hsub]. left.
  - apply IH.
Qed.

(** A placement is read back from the occupation it gives. *)
Lemma occupation_inj (n : nat) (alpha_pos beta_pos alpha_pos' beta_pos' : list nat) :
  alpha_pos `sublist_of` seq 0 n → beta_pos `sublist_of` seq 0 n →
  alpha_pos' `sublist_of` seq 0 n → beta_pos' `sublist_of` seq 0 n →
  occupation n alpha_pos beta_pos = occupation n alpha_pos' beta_pos' →
  alpha_pos = alpha_pos' ∧ beta_pos = beta_pos'.
Proof.
  intros Ha Hb Ha' Hb' Heq.
  assert (∀ i, (i < n)%nat →
            (i ∈ alpha_pos ↔ i ∈ alpha_pos') ∧ (i ∈ beta_pos ↔ i ∈ beta_pos'))
    as Hmem.
  { intros i Hi. apply (f_equal (.!! i)) in Heq.
    rewrite !lookup_occupation in Heq by done. injection Heq as Heq.
    rewrite <- (bool_decide_eq_true (i ∈ alpha_pos)),
      <- (bool_decide_eq_true (i ∈ alpha_pos')),
      <- (bool_decide_eq_true (i ∈ beta_pos)),
      <- (bool_decide_eq_true (i ∈ beta_pos')).
    destruct (bool_decide (i ∈ alpha_pos)), (bool_decide (i ∈ beta_pos)),
      (bool_decide (i ∈ alpha_pos')), (bool_decide (i ∈ beta_pos'));
      simpl in Heq; try discriminate Heq; by split. }
  split.
  - rewrite <- (sublist_filter_elem_of (seq 0 n) alpha_pos),
      <- (sublist_filter_elem_of (seq 0 n) alpha_pos')
      by (apply NoDup_seq || done).
    apply filter_ext_elem_of. intros i Hi%elem_of_seq. apply Hmem. lia.
  - rewrite <- (sublist_filter_elem_of (seq 0 n) beta_pos),
      <- (sublist_filter_elem_of (seq 0 n) beta_pos')
      by (apply NoDup_seq || done).
    apply filter_ext_elem_of. intros i Hi%elem_of_seq. apply Hmem. lia.
Qed.

Lemma collect_candidates positions n alphas betas :
  collect positions n alphas betas
  = list_to_set (candidates positions n alphas betas).
Proof.
  apply set_eq. intros s. unfold candidates.
  rewrite elem_of_collect, elem_of_list_to_set, list_elem_of_bind. split.
  - intros (alpha_pos & beta_pos & Ha & Hb & ->). exists alpha_pos.
    split; [|done]. apply list_elem_of_fmap. eauto.
  - intros (alpha_pos & (beta_pos & -> & Hb)%list_elem_of_fmap & Ha). eauto.
Qed.

Lemma length_candidates positions n alphas betas :
  length (candidates positions n alphas betas)
  = (length alphas * length betas)%nat.
Proof.
  unfold candidates. induction alphas as [|alpha_pos alphas IH]; [done|].
  csimpl. by rewrite length_app, length_fmap, IH.
Qed.



Lemma NoDup_candidates (specs : list (string * Z)) (ka kb : nat) :
  counts_non_negative specs →
  let n := Z.to_nat (Py.sum (specs.*2)) in
  NoDup (candidates (boundaries 0 (specs.*2)) n
           (Py.subsequences (seq 0 n) ka) (Py.subsequences (seq 0 n) kb)).
Proof.
  intros Hcounts n.
  assert (∀ a b a' b',
    a ∈ Py.subsequences (seq 0 n) ka → b ∈ Py.subsequences (seq 0 n) kb →
    a' ∈ Py.subsequences (seq 0 n) ka → b' ∈ Py.subsequences (seq 0 n) kb →
    format (boundaries 0 (specs.*2)) (occupation n a b)
    = format (boundaries 0 (specs.*2)) (occupation n a' b') →
    a = a' ∧ b = b') as Hinj.
  { intros a b a' b' [Ha _]%elem_of_subsequences [Hb _]%elem_of_subsequences
      [Ha' _]%elem_of_subsequences [Hb' _]%elem_of_subsequences Heq.
    apply (occupation_inj n); [done..|].
    by apply (format_inj specs); [|apply occupation_is_occupation..|]. }
  apply NoDup_bind.
  - intros a a' s Ha Ha' (b & -> & Hb)%list_elem_of_fmap
      (b' & Heq & Hb')%list_elem_of_fmap.
    by destruct (Hinj a b a' b').
  - intros a Ha. apply NoDup_fmap_2_strong.
    + intros b b' Hb Hb' Heq. by destruct (Hinj a b a b').
    + apply NoDup_subsequences, NoDup_seq.
  - apply NoDup_subsequences, NoDup_seq.
Qed.

(** With non-negative counts the string of an occupation of [N] symbols
    is its symbols in groups of the irrep sizes, separated by spaces. *)
Lemma format_grouped_string (counts : list Z) (occ : list ascii) :
  Forall (λ count, 0 ≤ count) counts →
  length occ = Z.to_nat (Py.sum counts) →
  format (boundaries 0 counts) occ = grouped_string counts occ.
Proof. apply format_boundaries. Qed.

(** C1: when both placement sizes fit the number of orbitals (and the
    counts are not negative), the call returns a set that holds exactly
    the grouped strings of the occupations built from an alpha placement
    of size [n_alpha] and a beta placement of size [n_beta] among the [N]
    indices, which are exactly the grouped strings of the occupations with
    [n_alpha] positions in [{a, 2}] and [n_beta] positions in [{b, 2}].
    Two occupations never share a string, and the set has one string for
    each pair of placements: it merges none and repeats none. *)
Theorem generate_configurations_exact (te fc : Z) (specs : list (string * Z)) :
  let self := __init__ te fc specs in
  let counts := specs.*2 in
  let N := Py.sum counts in
  let n_a := (te - fc) `div` 2 in
  let n_b := (te - fc) - n_a in
  counts_non_negative specs →
  0 ≤ n_a ≤ N → 0 ≤ n_b ≤ N → n_b ≤ Py.ssize_t_array_max →
  ∃ configs : gset string,
    returns generate_configurations self = Ok configs
    ∧ (∀ s, s ∈ configs ↔
         ∃ alpha_pos beta_pos,
           alpha_pos `sublist_of` Py.range N
           ∧ Z.of_nat (length alpha_pos) = n_a
           ∧ beta_pos `sublist_of` Py.range N
           ∧ Z.of_nat (length beta_pos) = n_b
           ∧ s = grouped_string counts
                   (occupation (Z.to_nat N) alpha_pos beta_pos))
    ∧ (∀ s, s ∈ configs ↔
         ∃ occ,
           is_occupation (Z.to_nat N) occ
           ∧ Z.of_nat (alpha_count occ) = n_a
           ∧ Z.of_nat (beta_count occ) = n_b
           ∧ s = grouped_string counts occ)
    ∧ (∀ occ occ',
         is_occupation (Z.to_nat N) occ → is_occupation (Z.to_nat N) occ' →
         grouped_string counts occ = grouped_string counts occ' → occ = occ')
    ∧ size configs
      = (choose (Z.to_nat N) (Z.to_nat n_a)
         * choose (Z.to_nat N) (Z.to_nat n_b))%nat.
Proof.
  intros self counts N n_a n_b Hcounts [Ha HaN] [Hb HbN] Hmax.
  pose proof (counts_non_negative_snd _ Hcounts) as Hcounts'.
  assert (n_alpha self = n_a ∧ n_beta self = n_b) as [Hna Hnb]
    by (unfold n_alpha, n_beta, self; by rewrite init_fields).
  eexists. split.
  { unfold returns. rewrite run_generate; [done|by rewrite Hna|by rewrite Hnb]. }
  rewrite Hna, Hnb. unfold self. rewrite init_fields.
  cbn [irrep_positions n_orbitals]. fold counts N. split_and!.
  - intros s. rewrite elem_of_collect. split.
    + intros (alpha_pos & beta_pos & Hia & Hib & ->).
      apply elem_of_subsequences in Hia as [Hia Hla].
      apply elem_of_subsequences in Hib as [Hib Hlb].
      exists alpha_pos, beta_pos. split_and!; [done|lia|done|lia|].
      apply format_grouped_string; [done|]. by rewrite length_occupation.
    + intros (alpha_pos & beta_pos & Hia & Hla & Hib & Hlb & ->).
      exists alpha_pos, beta_pos.
      split_and!; [apply elem_of_subsequences; split; [done|lia]..|].
      symmetry. apply format_grouped_string; [done|].
      by rewrite length_occupation.
  - intros s. unfold Py.range. rewrite elem_of_collect_occupation.
    split; intros (occ & Hocc & Hca & Hcb & ->); exists occ;
      (split_and!; [done|lia|lia|]);
      [|symmetry]; apply format_grouped_string; (done || apply Hocc).
  - intros occ occ' Hocc Hocc' Heq. apply (format_inj specs); [done..|].
    fold counts. rewrite !format_grouped_string; (done || apply Hocc || apply Hocc').
  - unfold Py.range. fold N.
    rewrite collect_candidates, size_list_to_set
      by (by apply NoDup_candidates).
    by rewrite length_candidates, !length_subsequences, length_seq.
Qed.

Lemma generate_configurations_exact_witness :
  ∃ configs : gset string,
    returns generate_configurations (__init__ 3 0 [("A", 2); ("B", 1)])
    = Ok configs
    ∧ (∀ s, s ∈ configs ↔
         ∃ alpha_pos beta_pos,
           alpha_pos `sublist_of` Py.range 3
           ∧ Z.of_nat (length alpha_pos) = 1
           ∧ beta_pos `sublist_of` Py.range 3
           ∧ Z.of_nat (length beta_pos) = 2
           ∧ s = grouped_string [2; 1] (occupation 3 alpha_pos beta_pos))
    ∧ (∀ s, s ∈ configs ↔
         ∃ occ,
           is_occupation 3 occ
           ∧ Z.of_nat (alpha_count occ) = 1
           ∧ Z.of_nat (beta_count occ) = 2
           ∧ s = grouped_string [2; 1] occ)
    ∧ (∀ occ occ',
         is_occupation 3 occ → is_occupation 3 occ' →
         grouped_string [2; 1] occ = grouped_string [2; 1] occ' → occ = occ')
    ∧ size configs = 9%nat.
Proof.
  apply (generate_configurations_exact 3 0 [("A", 2); ("B", 1)]);
    [repeat constructor; simpl; lia | vm_compute; split; discriminate..
    | vm_compute; discriminate].
Defined.

(** C2: on valid input every string the call returns has symbol weight
    (2 per ['2'], 1 per ['a'] or ['b']) equal to the number of active
    electrons; and the call does return when [combinations] accepts the
    placement sizes. *)
Theorem weight_is_active_electrons (te fc : Z) (specs : list (string * Z)) :
  0 ≤ te → 0 ≤ fc ≤ te → counts_non_negative specs →
  ((te - fc) - (te - fc) `div` 2 ≤ Py.ssize_t_array_max →
   ∃ configs : gset string,
     returns generate_configurations (__init__ te fc specs) = Ok configs)
  ∧ ∀ (configs : gset string) (s : string),
      returns generate_configurations (__init__ te fc specs) = Ok configs →
      s ∈ configs → weight s = te - fc.
Proof.
  intros Hte Hfc Hcounts.
  pose proof (spin_split_bounds (te - fc)) as [Hfloor Hsum].
  pose proof (spin_split_le (te - fc)) as Hle.
  split.
  - intros Hmax. apply generate_returns.
    + unfold n_alpha. rewrite init_fields. cbn [active_electrons]. lia.
    + unfold n_beta. by rewrite init_fields.
  - intros configs s (_ & _ & Hocc)%generate_returned Hs.
    apply Hocc in Hs as (occ & Hocc' & Ha & Hb & Hs).
    apply returns_format in Hs. subst s.
    unfold n_alpha, n_beta in Ha, Hb. rewrite init_fields in *.
    cbn [active_electrons n_orbitals irrep_positions] in *.
    destruct (format_groups specs occ Hcounts Hocc') as (groups & -> & Hcat & _).
    rewrite weight_join, Hcat, weight_join_chars. lia.
Qed.

Lemma weight_is_active_electrons_witness :
  (∃ configs : gset string,
     returns generate_configurations (__init__ 10 2 [("Ag", 3); ("B3u", 2)])
     = Ok configs)
  ∧ ∀ (configs : gset string) (s : string),
      returns generate_configurations (__init__ 10 2 [("Ag", 3); ("B3u", 2)])
      = Ok configs →
      s ∈ configs → weight s = 10 - 2.
Proof.
  destruct (weight_is_active_electrons 10 2 [("Ag", 3); ("B3u", 2)])
    as [Hret Hweight]; [lia | lia | repeat constructor; simpl; lia |].
  split; [apply Hret; vm_compute; discriminate | exact Hweight].
Defined.




(** Between what an index array can hold and what a [Py_ssize_t] can, the
    exception is [MemoryError]. *)
Example too_many_electrons_memory :
  returns generate_configurations
    (__init__ 2305843009213693952 0 [("A", 1)])
  = Raise MemoryError.
Proof. vm_compute. reflexivity. Qed.

(** The bound [0 <= N] is used: were the counts to add up to a negative
    number, [n_alpha] could exceed it and still be negative. *)
Example negative_orbital_count_raises :
  returns generate_configurations (__init__ 0 2 [("A", -3)]) = Raise ValueError.
Proof. reflexivity. Qed.

Lemma occupation_no_electrons (n : nat) : occupation n [] [] = replicate n "0"%char.
Proof.
  unfold occupation. rewrite <- (length_seq n 0) at 2. by apply const_fmap.
Qed.

Lemma chunks_replicate {A} (sizes : list nat) (n : nat) (x : A) :
  (sum_list sizes ≤ n)%nat →
  chunks sizes (replicate n x) = (λ size, replicate size x) <$> sizes.
Proof.
  revert n. induction sizes as [|size sizes IH]; intros n Hn; simpl in *; [done|].
  rewrite take_replicate, drop_replicate, IH by lia. do 2 f_equal. lia.
Qed.

(** C7: without active electrons the call returns exactly one string, the
    formatted all-['0'] occupation; with non-negative counts that is one
    group of ['0'] of each irrep's size, joined by single spaces. *)
Theorem no_active_electrons_single (te fc : Z) (specs : list (string * Z)) :
  te - fc = 0 →
  let self := __init__ te fc specs in
  ∃ s : string,
    returns generate_configurations self = Ok {[ s ]}
    ∧ returns (_format_configuration (Py.repeat "0"%char (Py.sum (specs.*2))))
        self = Ok s
    ∧ (counts_non_negative specs →
       s = Py.join " "
             ((λ spec, Py.join_chars (Py.repeat "0"%char spec.2)) <$> specs)).
Proof.
  intros Hactive self.
  exists (format (irrep_positions self)
            (Py.repeat "0"%char (Py.sum (specs.*2)))).
  split_and!.
  - unfold returns. rewrite run_generate; unfold n_alpha, n_beta;
      unfold self; rewrite init_fields;
      cbn [active_electrons n_orbitals irrep_positions]; rewrite Hactive;
      [|done..].
    cbn [fst]. f_equal.
    change (Z.to_nat (spin_split 0).1) with 0%nat.
    change (Z.to_nat (spin_split 0).2) with 0%nat.
    unfold Py.range. destruct (seq 0 _); unfold collect; cbn [Py.subsequences foldl];
      by rewrite occupation_no_electrons, (right_id_L ∅ (∪)).
  - by apply returns_format.
  - intros Hcounts. unfold self. rewrite init_fields. cbn [irrep_positions].
    pose proof (sum_nonneg _ (counts_non_negative_snd _ Hcounts)).
    rewrite format_boundaries;
      [|by apply counts_non_negative_snd
       |unfold Py.repeat; by rewrite length_replicate].
    unfold Py.repeat. rewrite chunks_replicate
      by (rewrite sum_list_to_nat by (by apply counts_non_negative_snd); lia).
    f_equal. rewrite <- !list_fmap_compose. by apply list_fmap_ext.
Qed.

Lemma no_active_electrons_single_witness :
  ∃ s : string,
    returns generate_configurations (__init__ 2 2 [("Ag", 2); ("B1g", 1)])
    = Ok {[ s ]}
    ∧ s = "00 0".
Proof.
  destruct (no_active_electrons_single 2 2 [("Ag", 2); ("B1g", 1)])
    as (s & Hret & _ & Hs); [reflexivity|].
  exists s. split; [exact Hret|].
  rewrite Hs; [reflexivity|]. repeat constructor; simpl; lia.
Defined.

(** ** The layout of a returned string *)

Lemma length_cat_groups (specs : list (string * Z)) (groups : list string) :
  Forall2 (λ group spec,
     Z.of_nat (String.length group) = spec.2 ∧ symbols_only group)
    groups specs →
  Forall symbols_only groups
  ∧ (Forall (λ spec, 0 < spec.2) specs →
     Forall (λ group, group ≠ EmptyString ∧ symbols_only group) groups).
Proof.
  induction 1 as [|group spec groups specs [Hlen Hsym] _ [IH1 IH2]].
  - split; [constructor|]. intros _. constructor.
  - split; [by constructor|]. intros [Hpos Hspecs]%Forall_cons.
    constructor; [|by apply IH2]. split; [|done].
    intros ->. simpl in Hlen. lia.
Qed.

(** C3, as the code has it: with non-negative counts every returned string
    is, spaces removed, [N] occupation symbols, and it is the groups of the
    irreps in their order, each of its irrep's size and made of symbols,
    joined by single spaces (so splitting at the spaces gives the groups
    back); an irrep without orbitals gives an empty group, and when every
    count is positive each group is non-empty and the line neither starts
    nor ends with a space. *)
Theorem returned_string_layout (te fc : Z) (specs : list (string * Z))
    (configs : gset string) (s : string) :
  counts_non_negative specs →
  returns generate_configurations (__init__ te fc specs) = Ok configs →
  s ∈ configs →
  Z.of_nat (String.length (remove_spaces s)) = Py.sum (specs.*2)
  ∧ symbols_only (remove_spaces s)
  ∧ ∃ groups,
      grouped specs s groups
      ∧ (specs ≠ [] → split_spaces s = groups)
      ∧ (Forall (λ spec, 0 < spec.2) specs →
         Forall (λ group, group ≠ EmptyString) groups
         ∧ first_char s ≠ Some " "%char
         ∧ last_char s ≠ Some " "%char).
Proof.
  intros Hcounts Hret Hs.
  pose proof (sum_nonneg _ (counts_non_negative_snd _ Hcounts)) as HN.
  destruct (generate_returned _ _ Hret) as (Hpos & _ & Hocc).
  apply Hocc in Hs as (occ & Hocc' & _ & _ & Hs).
  apply returns_format in Hs. rewrite init_fields in Hs, Hocc'.
  cbn [irrep_positions n_orbitals] in Hs, Hocc'.
  destruct (format_groups specs occ Hcounts Hocc') as (groups & Hfmt & Hcat & Hg).
  rewrite Hfmt in Hs. destruct (length_cat_groups _ _ Hg) as [Hsym Hne].
  assert (remove_spaces s = Py.join_chars occ) as Hrm
    by (by rewrite Hs, remove_spaces_join, Hcat).
  destruct Hocc' as [Hlen Hocc'].
  split_and!.
  - rewrite Hrm, length_join_chars, Hlen. lia.
  - rewrite Hrm. by apply symbols_only_join_chars.
  - exists groups. split_and!; [done| |].
    + intros Hspecs. rewrite Hs. apply split_spaces_join; [|done].
      intros ->. apply Forall2_nil_inv_l in Hg. done.
    + intros Hposc. specialize (Hne Hposc). split.
      * eapply Forall_impl; [exact Hne|]. by intros group [? _].
      * rewrite Hs. by apply join_no_outer_space.
Qed.

Lemma returned_string_layout_witness :
  Z.of_nat (String.length (remove_spaces "ab ")) = 2
  ∧ ∃ groups,
      grouped [("Ag", 2); ("B1g", 0)] "ab " groups
      ∧ split_spaces "ab " = groups.
Proof.
  destruct (returned_string_layout 2 0 [("Ag", 2); ("B1g", 0)]
              {[ "20 "; "02 "; "ab "; "ba " ]} "ab ")
    as (Hlen & _ & groups & Hgroups & Hsplit & _).
  - repeat constructor; simpl; lia.
  - vm_compute. reflexivity.
  - apply (bool_decide_unpack _). vm_compute. exact I.
  - split; [exact Hlen|]. exists groups. split; [exact Hgroups|].
    by apply Hsplit.
Defined.

(** C3 as claimed fails on an irrep without orbitals: its group is empty,
    which leaves a space at the end of the line. *)
Lemma empty_irrep_breaks_layout :
  returns generate_configurations (__init__ 2 0 [("Ag", 2); ("B1g", 0)])
  = Ok {[ "20 "; "02 "; "ab "; "ba " ]}
  ∧ ¬ grouped_non_empty [("Ag", 2); ("B1g", 0)] "ab ".
Proof.
  split; [vm_compute; reflexivity|].
  intros (_ & groups & _ & _ & _ & Hlast). by apply Hlast.
Qed.



(** * Further properties of ci_combi.py *)

(** ** The positions computed by [__init__] *)

Lemma lookup_boundaries (pos : Z) (counts : list Z) (i : nat) (count : Z) :
  counts !! i = Some count →
  boundaries pos counts !! i
  = Some (pos + Py.sum (take i counts), pos + Py.sum (take (S i) counts)).
Proof.
  revert pos i. induction counts as [|c counts IH]; intros pos i Hi; [done|].
  destruct i as [|i].
  - injection Hi as ->. cbn [boundaries take lookup list_lookup].
    rewrite sum_cons. unfold Py.sum. simpl. do 2 f_equal; lia.
  - cbn [boundaries lookup list_lookup]. cbn [lookup list_lookup] in Hi.
    rewrite (IH _ _ Hi). cbn [take]. rewrite !sum_cons. do 2 f_equal; lia.
Qed.

(** X1: [__init__] gives every irrep the half-open range of orbital
    indices that starts where the previous irrep's range ends: the i-th
    pair of [irrep_positions] runs from the sum of the counts before it to
    that sum plus its own count; there is one pair per irrep, and
    [n_orbitals] is the sum of all counts. *)
Theorem irrep_positions_tile (te fc : Z) (specs : list (string * Z))
    (i : nat) (irrep : string) (count : Z) :
  specs !! i = Some (irrep, count) →
  let self := __init__ te fc specs in
  irrep_positions self !! i
  = Some (Py.sum (take i (specs.*2)), Py.sum (take i (specs.*2)) + count)
  ∧ Py.sum (take (S i) (specs.*2)) = Py.sum (take i (specs.*2)) + count
  ∧ length (irrep_positions self) = length specs
  ∧ n_orbitals self = Py.sum (take (length specs) (specs.*2)).
Proof.
  intros Hi self. unfold self. rewrite init_fields.
  cbn [irrep_positions n_orbitals].
  assert (specs.*2 !! i = Some count) as Hc
    by (by rewrite list_lookup_fmap, Hi).
  assert (Py.sum (take (S i) specs.*2) = Py.sum (take i specs.*2) + count) as Hs.
  { rewrite (take_S_r _ _ _ Hc). unfold Py.sum.
    rewrite foldl_app. simpl. done. }
  split_and!.
  - rewrite (lookup_boundaries _ _ _ _ Hc), Hs. do 2 f_equal; lia.
  - done.
  - clear. generalize 0. induction specs as [|[] specs IH]; intros pos;
      simpl; [done|]. by rewrite IH.
  - by rewrite <- (length_fmap snd), firstn_all.
Qed.

Lemma irrep_positions_tile_witness :
  irrep_positions (__init__ 10 2 [("Ag", 5); ("B3u", 2); ("B2u", 2)]) !! 2%nat
  = Some (7, 9).
Proof.
  by destruct (irrep_positions_tile 10 2 [("Ag", 5); ("B3u", 2); ("B2u", 2)]
                 2 "B2u" 2 eq_refl) as [-> _].
Defined.

(** ** How many configurations there are *)



(** The run of [main]: ten electrons, two of them frozen, over the
    fourteen orbitals of its seven irreps. *)
Example number_of_configurations_main :
  Z.of_nat (choose 14 4) * Z.of_nat (choose 14 4) = 1002001.
Proof. vm_compute. reflexivity. Qed.



(** X4: what the call returns depends on [total_electrons] and
    [frozen_core] only through their difference, and on [irrep_specs] only
    through the counts in their order: the irrep names play no part, and
    freezing core electrons removes no orbital. *)
Theorem result_depends_on_active_and_counts (te fc te' fc' : Z)
    (specs specs' : list (string * Z)) :
  te - fc = te' - fc' → specs.*2 = specs'.*2 →
  returns generate_configurations (__init__ te fc specs)
  = returns generate_configurations (__init__ te' fc' specs').
Proof.
  intros Hactive Hcounts. unfold returns.
  rewrite !run_generate_outcome. cbn [fst].
  unfold generate_outcome, n_alpha, n_beta. rewrite !init_fields.
  cbn [active_electrons n_orbitals irrep_positions].
  by rewrite Hactive, Hcounts.
Qed.

Lemma result_depends_on_active_and_counts_witness :
  returns generate_configurations (__init__ 10 2 [("Ag", 2); ("B3u", 1)])
  = returns generate_configurations (__init__ 8 0 [("s", 2); ("p", 1)]).
Proof. by apply result_depends_on_active_and_counts. Defined.

(** ** Reading returned strings back *)

Lemma remove_spaces_format (specs : list (string * Z)) (occ : list ascii) :
  counts_non_negative specs →
  is_occupation (Z.to_nat (Py.sum (specs.*2))) occ →
  remove_spaces (format (boundaries 0 (specs.*2)) occ) = Py.join_chars occ.
Proof.
  intros Hcounts Hocc.
  destruct (format_groups specs occ Hcounts Hocc) as (groups & Hf & Hcat & Hg).
  rewrite Hf, remove_spaces_join, Hcat; [done|].
  eapply Forall2_Forall_l; [exact Hg|]. apply Forall_true. tauto.
Qed.

(** X5: with non-negative counts, removing the spaces from the formatted
    string of an occupation of [N] symbols gives the occupation itself,
    symbol by symbol. *)
Theorem format_remove_spaces (te fc : Z) (specs : list (string * Z))
    (occ : list ascii) (s : string) :
  counts_non_negative specs →
  is_occupation (Z.to_nat (Py.sum (specs.*2))) occ →
  returns (_format_configuration occ) (__init__ te fc specs) = Ok s →
  remove_spaces s = Py.join_chars occ.
Proof.
  intros Hcounts Hocc Hs. apply returns_format in Hs.
  rewrite init_fields in Hs. cbn [irrep_positions] in Hs.
  rewrite Hs. by apply remove_spaces_format.
Qed.

Lemma format_remove_spaces_witness :
  remove_spaces "2a 0b" = Py.join_chars ["2"; "a"; "0"; "b"]%char.
Proof.
  apply (format_remove_spaces 5 0 [("A", 2); ("B", 2)]).
  - repeat constructor; simpl; lia.
  - split; [reflexivity|].
    repeat (apply Forall_cons; split; [unfold is_symbol; auto 6|]).
    apply Forall_nil_2.
  - reflexivity.
Defined.

Lemma length_append (s t : string) :
  String.length (s +:+ t) = (String.length s + String.length t)%nat.
Proof.
  induction s as [|c s IH]; [done|].
  change (S (String.length (s +:+ t)) = S (String.length s + String.length t)).
  by rewrite IH.
Qed.

Lemma length_join (groups : list string) :
  groups ≠ [] →
  (String.length (Py.join " " groups) + 1
   = sum_list (String.length <$> groups) + length groups)%nat.
Proof.
  induction groups as [|x [|y groups] IH]; intros Hne; [done| |].
  - simpl. lia.
  - rewrite join_cons_cons, !length_append.
    specialize (IH ltac:(done)). cbn [fmap list_fmap sum_list sum_list_with length] in *.
    change (String.length " ") with 1%nat. unfold id in *. lia.
Qed.

(** X6: with non-negative counts and at least one irrep, every returned
    line has the same length: one character per orbital and one space
    between consecutive irreps. *)
Theorem returned_line_length (te fc : Z) (specs : list (string * Z))
    (configs : gset string) (s : string) :
  counts_non_negative specs → specs ≠ [] →
  returns generate_configurations (__init__ te fc specs) = Ok configs →
  s ∈ configs →
  Z.of_nat (String.length s) = Py.sum (specs.*2) + Z.of_nat (length specs) - 1.
Proof.
  intros Hcounts Hne Hret Hs.
  pose proof (sum_nonneg _ (counts_non_negative_snd _ Hcounts)) as HN.
  destruct (generate_returned _ _ Hret) as (Hpos & _ & Hocc).
  apply Hocc in Hs as (occ & Hocc' & _ & _ & Hs).
  apply returns_format in Hs. rewrite init_fields in Hs, Hocc'.
  cbn [irrep_positions n_orbitals] in Hs, Hocc'.
  destruct (format_groups specs occ Hcounts Hocc') as (groups & Hf & Hcat & Hg).
  assert (groups ≠ []) as Hgne
    by (intros ->; by apply Forall2_nil_inv_l in Hg).
  pose proof (length_join groups Hgne) as Hlen.
  rewrite <- Hf, <- Hs in Hlen.
  assert (Z.of_nat (sum_list (String.length <$> groups)) = Py.sum (specs.*2)
          ∧ length groups = length specs) as [Hsum Hlg].
  { clear -Hg. induction Hg as [|g [irrep count] groups specs [Hl _] _ [IH1 IH2]];
      [done|].
    cbn [fmap list_fmap sum_list sum_list_with snd length] in *.
    unfold sum_list, id in *. rewrite sum_cons. split; lia. }
  lia.
Qed.

Lemma returned_line_length_witness :
  Z.of_nat (String.length "ab ") = 2 + 2 - 1.
Proof.
  apply (returned_line_length 2 0 [("Ag", 2); ("B1g", 0)]
           {[ "20 "; "02 "; "ab "; "ba " ]} "ab ").
  - repeat constructor; simpl; lia.
  - discriminate.
  - vm_compute. reflexivity.
  - apply (bool_decide_unpack _). vm_compute. exact I.
Defined.

(** ** Spin balance *)

Lemma spin_excess_app (s t : string) :
  spin_excess (s +:+ t) = spin_excess s + spin_excess t.
Proof. induction s as [|c s IH]; simpl; [done|]. rewrite IH. lia. Qed.

Lemma spin_excess_join (parts : list string) :
  spin_excess (Py.join " " parts) = spin_excess (cat parts).
Proof.
  induction parts as [|x [|y parts] IH]; [done| |].
  - simpl. by rewrite spin_excess_app, Z.add_0_r.
  - rewrite join_cons_cons, !spin_excess_app, IH. cbn [cat foldr].
    rewrite !spin_excess_app. change (spin_excess " ") with 0. lia.
Qed.

Lemma symbol_spin_holds (c : ascii) :
  symbol_spin c
  = (if decide (holds_alpha c) then 1 else 0)
    - (if decide (holds_beta c) then 1 else 0).
Proof.
  unfold symbol_spin.
  destruct (decide (c = "a"%char)) as [->|Ha]; [reflexivity|].
  destruct (decide (c = "b"%char)) as [->|Hb]; [reflexivity|].
  destruct (decide (c = "2"%char)) as [->|H2]; [reflexivity|].
  rewrite (decide_False (P := holds_alpha c)) by (unfold holds_alpha; tauto).
  by rewrite (decide_False (P := holds_beta c)) by (unfold holds_beta; tauto).
Qed.

Lemma spin_excess_join_chars (occ : list ascii) :
  spin_excess (Py.join_chars occ)
  = Z.of_nat (alpha_count occ) - Z.of_nat (beta_count occ).
Proof.
  unfold alpha_count, beta_count. induction occ as [|c occ IH]; [done|].
  cbn [Py.join_chars string_of_list_ascii spin_excess].
  fold (Py.join_chars occ). rewrite IH, symbol_spin_holds, !filter_cons.
  destruct (decide (holds_alpha c)), (decide (holds_beta c)); simpl; lia.
Qed.

(** X7: with non-negative counts every returned string has as many ['a']
    as ['b'] when the number of active electrons is even, and one ['b']
    more than ['a'] when it is odd. *)
Theorem returned_spin_excess (te fc : Z) (specs : list (string * Z))
    (configs : gset string) (s : string) :
  counts_non_negative specs →
  returns generate_configurations (__init__ te fc specs) = Ok configs →
  s ∈ configs →
  spin_excess s = - ((te - fc) `mod` 2).
Proof.
  intros Hcounts Hret Hs.
  destruct (generate_returned _ _ Hret) as (Hpos & _ & Hocc).
  apply Hocc in Hs as (occ & Hocc' & Ha & Hb & Hs).
  apply returns_format in Hs.
  unfold n_alpha, n_beta, spin_split in Ha, Hb. rewrite init_fields in *.
  cbn [irrep_positions n_orbitals active_electrons fst snd] in *.
  destruct (format_groups specs occ Hcounts Hocc') as (groups & Hf & Hcat & _).
  rewrite Hs, Hf, spin_excess_join, Hcat, spin_excess_join_chars.
  pose proof (Z.div_mod (te - fc) 2). lia.
Qed.

Lemma returned_spin_excess_witness : spin_excess "ab b" = - (3 `mod` 2).
Proof.
  apply (returned_spin_excess 3 0 [("A", 2); ("B", 1)]
           {[ "ab b"; "2b 0"; "20 b"; "ba b"; "b2 0"; "bb a"; "b0 2"; "02 b";
              "0b 2" ]}).
  - repeat constructor; simpl; lia.
  - vm_compute. reflexivity.
  - apply (bool_decide_unpack _). vm_compute. exact I.
Defined.

(** ** Exchanging the two spins *)

Lemma map_string_app f (s t : string) :
  map_string f (s +:+ t) = map_string f s +:+ map_string f t.
Proof.
  induction s as [|c s IH]; [done|].
  change (String (f c) (map_string f (s +:+ t))
          = String (f c) (map_string f s +:+ map_string f t)).
  by rewrite IH.
Qed.

Lemma map_string_join f (parts : list string) :
  f " "%char = " "%char →
  map_string f (Py.join " " parts) = Py.join " " (map_string f <$> parts).
Proof.
  intros Hsp. induction parts as [|x [|y parts] IH]; [done..|].
  rewrite join_cons_cons, !map_string_app, IH.
  cbn [fmap list_fmap]. rewrite join_cons_cons. simpl. by rewrite Hsp.
Qed.

Lemma map_string_join_chars f (chars : list ascii) :
  map_string f (Py.join_chars chars) = Py.join_chars (f <$> chars).
Proof.
  unfold Py.join_chars. induction chars as [|c chars IH]; [done|].
  simpl. by rewrite IH.
Qed.

Lemma slice_fmap {A B} (f : A → B) (l : list A) (start stop : Z) :
  Py.slice (f <$> l) start stop = f <$> Py.slice l start stop.
Proof. unfold Py.slice. by rewrite length_fmap, fmap_take, fmap_drop. Qed.

Lemma format_fmap f positions (occ : list ascii) :
  f " "%char = " "%char →
  format positions (f <$> occ) = map_string f (format positions occ).
Proof.
  intros Hsp. unfold format. rewrite map_string_join by done. f_equal.
  rewrite <- list_fmap_compose. apply list_fmap_ext.
  intros _ [start stop] _. simpl.
  by rewrite slice_fmap, map_string_join_chars.
Qed.

Lemma flip_symbol_alpha (c : ascii) : holds_alpha (flip_symbol c) ↔ holds_beta c.
Proof.
  unfold flip_symbol, holds_alpha, holds_beta.
  destruct (decide (c = "a"%char)) as [->|Ha];
    [split; intros [H|H]; discriminate H|].
  destruct (decide (c = "b"%char)) as [->|Hb]; [split; auto|].
  tauto.
Qed.

Lemma flip_symbol_beta (c : ascii) : holds_beta (flip_symbol c) ↔ holds_alpha c.
Proof.
  unfold flip_symbol, holds_alpha, holds_beta.
  destruct (decide (c = "a"%char)) as [->|Ha]; [split; auto|].
  destruct (decide (c = "b"%char)) as [->|Hb];
    [split; intros [H|H]; discriminate H|].
  tauto.
Qed.

Lemma flip_occupation n (occ : list ascii) :
  is_occupation n occ →
  is_occupation n (flip_symbol <$> occ)
  ∧ alpha_count (flip_symbol <$> occ) = beta_count occ
  ∧ beta_count (flip_symbol <$> occ) = alpha_count occ.
Proof.
  intros [Hlen Hsym]. split_and!.
  - split; [by rewrite length_fmap|]. apply Forall_fmap.
    eapply Forall_impl; [exact Hsym|]. intros c. unfold is_symbol. simpl.
    by intros [-> | [-> | [-> | ->]]]; vm_compute; auto 6.
  - unfold alpha_count, beta_count. rewrite filter_fmap, length_fmap. f_equal.
    apply list_filter_iff. intros c. apply flip_symbol_alpha.
  - unfold alpha_count, beta_count. rewrite filter_fmap, length_fmap. f_equal.
    apply list_filter_iff. intros c. apply flip_symbol_beta.
Qed.

(** X8: for an even number of active electrons the returned set is closed
    under exchanging the spins: with a string it holds the string in which
    every ['a'] is a ['b'] and every ['b'] an ['a']. *)
Theorem flip_spins_closed (te fc : Z) (specs : list (string * Z))
    (configs : gset string) (s : string) :
  (te - fc) `mod` 2 = 0 →
  returns generate_configurations (__init__ te fc specs) = Ok configs →
  s ∈ configs →
  flip_spins s ∈ configs.
Proof.
  intros Heven Hret Hs.
  destruct (generate_returned _ _ Hret) as (Hpos & _ & Hocc).
  apply Hocc in Hs as (occ & Hocc' & Ha & Hb & Hs). apply Hocc.
  destruct (flip_occupation _ _ Hocc') as (Hfocc & Hfa & Hfb).
  exists (flip_symbol <$> occ).
  assert (n_alpha (__init__ te fc specs) = n_beta (__init__ te fc specs)) as Hab.
  { unfold n_alpha, n_beta, spin_split. rewrite init_fields.
    cbn [active_electrons fst snd]. pose proof (Z.div_mod (te - fc) 2). lia. }
  split_and!; [done|lia|lia|].
  apply returns_format. apply returns_format in Hs.
  by rewrite format_fmap, <- Hs.
Qed.

Lemma flip_spins_closed_witness :
  flip_spins "a b" ∈ ({[ "2 0"; "0 2"; "a b"; "b a" ]} : gset string).
Proof.
  apply (flip_spins_closed 2 0 [("A", 1); ("B", 1)]).
  - reflexivity.
  - vm_compute. reflexivity.
  - apply (bool_decide_unpack _). vm_compute. exact I.
Defined.

(** ** Grouping and placement are independent *)

(** X9: two irrep layouts with non-negative counts and the same number of
    orbitals give the same occupations: each string returned for one
    layout has a string returned for the other that is equal to it once
    the spaces are removed. *)
Theorem regrouping_keeps_occupations (te fc : Z)
    (specs specs' : list (string * Z)) (configs configs' : gset string)
    (s : string) :
  counts_non_negative specs → counts_non_negative specs' →
  Py.sum (specs.*2) = Py.sum (specs'.*2) →
  returns generate_configurations (__init__ te fc specs) = Ok configs →
  returns generate_configurations (__init__ te fc specs') = Ok configs' →
  s ∈ configs →
  ∃ s', s' ∈ configs' ∧ remove_spaces s' = remove_spaces s.
Proof.
  intros Hcounts Hcounts' Hsum Hret Hret' Hs.
  destruct (generate_returned _ _ Hret) as (Hpos & _ & Hocc).
  destruct (generate_returned _ _ Hret') as (Hpos' & _ & Hocc').
  apply Hocc in Hs as (occ & Hio & Ha & Hb & Hs).
  exists (format (irrep_positions (__init__ te fc specs')) occ).
  assert (is_occupation (Z.to_nat (Py.sum (specs'.*2))) occ) as Hio'.
  { rewrite <- Hsum. by rewrite init_fields in Hio. }
  split.
  - apply Hocc'. exists occ. unfold n_alpha, n_beta in *.
    rewrite init_fields in *.
    cbn [n_orbitals active_electrons irrep_positions] in *.
    split_and!; [done..|]. by apply returns_format.
  - apply returns_format in Hs. rewrite init_fields in Hs, Hio |- *.
    cbn [irrep_positions n_orbitals] in *.
    by rewrite Hs, !remove_spaces_format.
Qed.

Lemma regrouping_keeps_occupations_witness :
  ∃ s', s' ∈ ({[ "20"; "02"; "ab"; "ba" ]} : gset string)
        ∧ remove_spaces s' = remove_spaces "a b".
Proof.
  apply (regrouping_keeps_occupations 2 0 [("A", 1); ("B", 1)] [("A", 2)]
           {[ "2 0"; "0 2"; "a b"; "b a" ]}).
  - repeat constructor; simpl; lia.
  - repeat constructor; simpl; lia.
  - reflexivity.
  - vm_compute. reflexivity.
  - vm_compute. reflexivity.
  - apply (bool_decide_unpack _). vm_compute. exact I.
Defined.

(** * Properties of conversion.py *)

(** ** The two loops of [det_to_occupation] *)

Ltac step_outcome :=
  cbn [fmap option_fmap option_map mbind Conversion.outcome_bind].

Lemma position_lt (len : nat) (i : Z) (j : nat) :
  Conversion.position len i = Some j → (j < len)%nat.
Proof.
  unfold Conversion.position. repeat case_decide; intros [= <-]; lia.
Qed.

Lemma position_non_negative (len : nat) (i : Z) :
  0 ≤ i < Z.of_nat len → Conversion.position len i = Some (Z.to_nat i).
Proof.
  intros Hi. unfold Conversion.position.
  destruct (decide (i < 0)); [lia|]. cbv zeta. by rewrite decide_True by lia.
Qed.

Lemma position_negative (len : nat) (i : Z) :
  - Z.of_nat len ≤ i < 0 →
  Conversion.position len i = Some (Z.to_nat (i + Z.of_nat len)).
Proof.
  intros Hi. unfold Conversion.position.
  destruct (decide (i < 0)); [|lia]. cbv zeta. by rewrite decide_True by lia.
Qed.

Lemma position_below (len : nat) (i : Z) :
  i < - Z.of_nat len → Conversion.position len i = None.
Proof.
  intros Hi. unfold Conversion.position.
  destruct (decide (i < 0)); [|lia]. cbv zeta. by rewrite decide_False by lia.
Qed.

Lemma getitem_position {A} (l : list A) (i : Z) (j : nat) (x : A) :
  Conversion.position (length l) i = Some j → l !! j = Some x →
  Conversion.getitem l i = Conversion.Return x.
Proof. intros Hp Hx. unfold Conversion.getitem. by rewrite Hp, Hx. Qed.

Lemma setitem_position {A} (l : list A) (i : Z) (j : nat) (x : A) :
  Conversion.position (length l) i = Some j →
  Conversion.setitem l i x = Conversion.Return (<[j := x]> l).
Proof. intros Hp. unfold Conversion.setitem. by rewrite Hp. Qed.

Lemma mark_alpha_cons (j : nat) (js : list nat) (dist : list ascii) :
  mark_alpha js (<[j := "a"%char]> dist) = mark_alpha (j :: js) dist.
Proof.
  apply list_eq. intros i. unfold mark_alpha.
  rewrite !list_lookup_imap. destruct (decide (i = j)) as [->|Hne].
  - destruct (decide (j < length dist)%nat) as [Hj|Hj].
    + rewrite list_lookup_insert_eq by done.
      destruct (lookup_lt_is_Some_2 dist j Hj) as [c ->]. step.
      rewrite (decide_True (P := j ∈ j :: js)) by left.
      by destruct (decide (j ∈ js)).
    + rewrite list_insert_ge by lia.
      by rewrite (lookup_ge_None_2 dist j) by lia.
  - rewrite list_lookup_insert_ne by done.
    destruct (dist !! i); step; [|done]. f_equal.
    destruct (decide (i ∈ js)) as [Hi|Hi].
    + by rewrite decide_True by (by right).
    + rewrite decide_False; [done|]. by intros [?|?]%elem_of_cons.
Qed.

Lemma mark_beta_cons (j : nat) (js : list nat) (dist : list ascii) (c : ascii) :
  dist !! j = Some c → j ∉ js →
  mark_beta js (<[j := overlay c]> dist) = mark_beta (j :: js) dist.
Proof.
  intros Hc Hj. apply list_eq. intros i. unfold mark_beta.
  rewrite !list_lookup_imap. destruct (decide (i = j)) as [->|Hne].
  - rewrite list_lookup_insert_eq, Hc by (by eapply lookup_lt_Some). step.
    rewrite decide_False by done. by rewrite decide_True by left.
  - rewrite list_lookup_insert_ne by done.
    destruct (dist !! i); step; [|done]. f_equal.
    destruct (decide (i ∈ js)) as [Hi|Hi].
    + by rewrite decide_True by (by right).
    + rewrite decide_False; [done|]. by intros [?|?]%elem_of_cons.
Qed.

Lemma insert_mark_alpha (j : nat) (js : list nat) (dist : list ascii) :
  <[j := "a"%char]> (mark_alpha js dist) = mark_alpha (j :: js) dist.
Proof.
  apply list_eq. intros i. unfold mark_alpha.
  destruct (decide (i = j)) as [->|Hne].
  - destruct (decide (j < length dist)%nat) as [Hj|Hj].
    + rewrite list_lookup_insert_eq by (by rewrite length_imap).
      rewrite list_lookup_imap.
      destruct (lookup_lt_is_Some_2 dist j Hj) as [c ->]. step.
      by rewrite decide_True by left.
    + rewrite list_insert_ge by (rewrite length_imap; lia).
      by rewrite !list_lookup_imap, (lookup_ge_None_2 dist j) by lia.
  - rewrite list_lookup_insert_ne by done. rewrite !list_lookup_imap.
    destruct (dist !! i); step; [|done]. f_equal.
    destruct (decide (i ∈ js)) as [Hi|Hi].
    + by rewrite decide_True by (by right).
    + rewrite decide_False; [done|]. by intros [?|?]%elem_of_cons.
Qed.

(** The alpha loop on orbitals that are all still empty. *)
Lemma process_alpha_ok self (dist : list ascii) (det : list Z) (js : list nat) :
  length dist = Z.to_nat (Conversion.n_orbitals self) →
  addresses self det js → NoDup js →
  Forall (λ j, dist !! j = Some "0"%char) js →
  Conversion.process_alpha self dist det
  = Conversion.Return (mark_alpha js dist).
Proof.
  intros Hlen Haddr. revert dist Hlen.
  induction Haddr as [|i j det js [Hi Hp] Haddr IH]; intros dist Hlen Hnd Hz;
    cbn [Conversion.process_alpha].
  - f_equal. apply list_eq. intros i. unfold mark_alpha.
    rewrite list_lookup_imap. destruct (dist !! i); step; [|done].
    by rewrite decide_False by apply not_elem_of_nil.
  - apply NoDup_cons in Hnd as [Hj Hnd]. apply Forall_cons in Hz as [Hzj Hz].
    rewrite decide_False by lia. rewrite <- Hlen in Hp.
    rewrite (getitem_position _ _ _ _ Hp Hzj). step_outcome.
    rewrite decide_True by done.
    rewrite (setitem_position _ _ _ _ Hp). step_outcome.
    rewrite IH, mark_alpha_cons; [done|by rewrite length_insert|done|].
    apply Forall_forall. intros j' Hj'.
    rewrite list_lookup_insert_ne by (intros ->; done).
    by eapply Forall_forall in Hz.
Qed.

(** The alpha loop only returns when no index is out of range and no
    orbital is met twice. *)
Lemma process_alpha_inv self (det : list Z) (dist' : list ascii) :
  let dist := replicate (Z.to_nat (Conversion.n_orbitals self)) "0"%char in
  ∀ marked : list nat,
  Conversion.process_alpha self (mark_alpha marked dist) det
  = Conversion.Return dist' →
  ∃ js, addresses self det js ∧ NoDup js ∧ (∀ j, j ∈ js → j ∉ marked).
Proof.
  intros dist. induction det as [|i det IH]; intros marked Hret.
  - exists []. split_and!; [constructor|constructor|]. by intros j []%elem_of_nil.
  - cbn [Conversion.process_alpha] in Hret.
    destruct (decide (i >= Conversion.n_orbitals self)); [done|].
    unfold Conversion.getitem, Conversion.setitem in Hret.
    assert (length (mark_alpha marked dist)
            = Z.to_nat (Conversion.n_orbitals self)) as Hlen
      by (unfold mark_alpha, dist; by rewrite length_imap, length_replicate).
    rewrite Hlen in Hret.
    destruct (Conversion.position _ i) as [j|] eqn:Hp; [|done].
    pose proof (position_lt _ _ _ Hp) as Hj.
    assert (mark_alpha marked dist !! j
            = Some (if decide (j ∈ marked) then "a" else "0")%char) as Hlook.
    { unfold mark_alpha, dist.
      by rewrite list_lookup_imap, lookup_replicate_2 by done. }
    rewrite Hlook in Hret.
    destruct (decide (j ∈ marked)) as [Hin|Hnin].
    + cbn [mbind Conversion.outcome_bind] in Hret.
      rewrite decide_False in Hret by done.
      cbn [mbind Conversion.outcome_bind] in Hret.
      by rewrite decide_False in Hret by done.
    + cbn [mbind Conversion.outcome_bind] in Hret.
      rewrite decide_True in Hret by done.
      cbn [mbind Conversion.outcome_bind] in Hret.
      rewrite insert_mark_alpha in Hret.
      destruct (IH _ Hret) as (js & Haddr & Hnd & Hfresh).
      exists (j :: js). split_and!.
      * constructor; [split; [lia|done] | done].
      * constructor; [|done]. intros Hjj. apply (Hfresh _ Hjj). left.
      * intros j' [->|Hj']%elem_of_cons; [done|].
        intros Hm. apply (Hfresh _ Hj'). by right.
Qed.

(** The beta loop on orbitals that hold no beta electron yet. *)
Lemma process_beta_ok self (dist : list ascii) (det : list Z) (js : list nat) :
  length dist = Z.to_nat (Conversion.n_orbitals self) →
  addresses self det js → NoDup js →
  Forall (λ j, dist !! j = Some "0"%char ∨ dist !! j = Some "a"%char) js →
  Conversion.process_beta self dist det
  = Conversion.Return (mark_beta js dist).
Proof.
  intros Hlen Haddr. revert dist Hlen.
  induction Haddr as [|i j det js [Hi Hp] Haddr IH]; intros dist Hlen Hnd Hz;
    cbn [Conversion.process_beta].
  - f_equal. apply list_eq. intros i. unfold mark_beta.
    rewrite list_lookup_imap. destruct (dist !! i); step; [|done].
    by rewrite decide_False by apply not_elem_of_nil.
  - apply NoDup_cons in Hnd as [Hj Hnd]. apply Forall_cons in Hz as [Hzj Hz].
    rewrite decide_False by lia. rewrite <- Hlen in Hp.
    assert (∀ c, Forall (λ j', <[j:=c]> dist !! j' = Some "0"%char
                               ∨ <[j:=c]> dist !! j' = Some "a"%char) js)
      as Hrest.
    { intros c. apply Forall_forall. intros j' Hj'.
      rewrite list_lookup_insert_ne by (intros ->; done).
      by eapply Forall_forall in Hz. }
    destruct Hzj as [Hc|Hc]; rewrite !(getitem_position _ _ _ _ Hp Hc);
      step_outcome.
    + rewrite decide_True by done.
      rewrite (setitem_position _ _ _ _ Hp). step_outcome.
      rewrite (IH (<[j:="b"%char]> dist)); [|by rewrite length_insert|done|done].
      by rewrite <- (mark_beta_cons j js dist "0"%char).
    + rewrite decide_False by done. step_outcome. rewrite decide_True by done.
      rewrite (setitem_position _ _ _ _ Hp). step_outcome.
      rewrite (IH (<[j:="2"%char]> dist)); [|by rewrite length_insert|done|done].
      by rewrite <- (mark_beta_cons j js dist "a"%char).
Qed.

(** The beta loop only returns when no index is out of range and every
    orbital it meets holds no beta electron, so none is met twice. *)
Lemma process_beta_inv self (det : list Z) (dist dist' : list ascii) :
  length dist = Z.to_nat (Conversion.n_orbitals self) →
  Conversion.process_beta self dist det = Conversion.Return dist' →
  ∃ js, addresses self det js ∧ NoDup js
        ∧ Forall (λ j, dist !! j = Some "0"%char ∨ dist !! j = Some "a"%char) js.
Proof.
  revert dist. induction det as [|i det IH]; intros dist Hlen Hret.
  - exists []. split_and!; constructor.
  - cbn [Conversion.process_beta] in Hret.
    destruct (decide (i >= Conversion.n_orbitals self)); [done|].
    unfold Conversion.getitem, Conversion.setitem in Hret.
    rewrite Hlen in Hret.
    destruct (Conversion.position _ i) as [j|] eqn:Hp; [|done].
    pose proof (position_lt _ _ _ Hp) as Hj.
    destruct (lookup_lt_is_Some_2 dist j ltac:(lia)) as [c Hc].
    rewrite Hc in Hret. cbn [mbind Conversion.outcome_bind] in Hret.
    assert (∀ c', (c = "0"%char ∨ c = "a"%char) →
      Conversion.process_beta self (<[j:=c']> dist) det = Conversion.Return dist' →
      c' ≠ "0"%char → c' ≠ "a"%char →
      ∃ js, addresses self (i :: det) js ∧ NoDup js
        ∧ Forall (λ j, dist !! j = Some "0"%char ∨ dist !! j = Some "a"%char) js)
      as Hstep.
    { intros c' Hcc Hrec H0 Ha.
      destruct (IH _ ltac:(by rewrite length_insert) Hrec)
        as (js & Haddr & Hnd & Hjs).
      assert (j ∉ js) as Hfresh.
      { intros Hin. eapply Forall_forall in Hjs; [|exact Hin].
        rewrite list_lookup_insert_eq in Hjs by lia.
        destruct Hjs as [[= ?]|[= ?]]; done. }
      exists (j :: js). split_and!.
      - constructor; [split; [lia|done] | done].
      - by constructor.
      - constructor; [destruct Hcc as [-> | ->]; auto|].
        apply Forall_forall. intros j' Hj'.
        eapply Forall_forall in Hjs; [|exact Hj'].
        by rewrite list_lookup_insert_ne in Hjs by (intros ->; done). }
    destruct (decide (c = "0"%char)) as [->|H0].
    + cbn [mbind Conversion.outcome_bind] in Hret.
      by apply (Hstep "b"%char); [left|..].
    + cbn [mbind Conversion.outcome_bind] in Hret.
      destruct (decide (c = "a"%char)) as [->|Ha]; [|done].
      cbn [mbind Conversion.outcome_bind] in Hret.
      by apply (Hstep "2"%char); [right|..].
Qed.

(** ** The electron count *)

Lemma electrons_found_counts (occ : list ascii) :
  Conversion.electrons_found occ
  = Z.of_nat (alpha_count occ) + Z.of_nat (beta_count occ).
Proof.
  rewrite <- weight_join_chars. unfold Conversion.electrons_found.
  induction occ as [|c occ IH]; [done|].
  cbn [fmap list_fmap Py.join_chars string_of_list_ascii weight].
  fold (Py.join_chars occ). rewrite sum_cons, IH. f_equal.
  unfold symbol_weight.
  destruct (decide (c = "2"%char)) as [->|H2]; [done|].
  destruct (decide (c = "a"%char)) as [->|Ha]; [done|].
  destruct (decide (c = "b"%char)) as [->|Hb]; [done|].
  rewrite decide_False; [done|].
  by intros [->|[->|[]%elem_of_nil]%elem_of_cons]%elem_of_cons.
Qed.

Lemma length_filter_members (n : nat) (js : list nat) :
  NoDup js → Forall (λ j, (j < n)%nat) js →
  length (filter (.∈ js) (seq 0 n)) = length js.
Proof.
  intros Hnd Hlt. apply Permutation_length, NoDup_Permutation.
  - apply NoDup_filter, NoDup_seq.
  - done.
  - intros j. rewrite list_elem_of_filter, elem_of_seq. split; [by intros [? _]|].
    intros Hj. split; [done|]. eapply Forall_forall in Hlt; [|exact Hj]. lia.
Qed.

Lemma counts_occupation (n : nat) (ja jb : list nat) :
  NoDup ja → NoDup jb →
  Forall (λ j, (j < n)%nat) ja → Forall (λ j, (j < n)%nat) jb →
  alpha_count (occupation n ja jb) = length ja
  ∧ beta_count (occupation n ja jb) = length jb.
Proof.
  intros Hnda Hndb Ha Hb. unfold alpha_count, beta_count, occupation.
  rewrite !filter_fmap, !length_fmap. split.
  - rewrite <- (length_filter_members n ja) by done. f_equal.
    apply list_filter_iff. intros i. simpl.
    by rewrite holds_alpha_symbol, bool_decide_eq_true.
  - rewrite <- (length_filter_members n jb) by done. f_equal.
    apply list_filter_iff. intros i. simpl.
    by rewrite holds_beta_symbol, bool_decide_eq_true.
Qed.

Lemma addresses_lt self det js :
  addresses self det js →
  Forall (λ j, (j < Z.to_nat (Conversion.n_orbitals self))%nat) js
  ∧ length js = length det.
Proof.
  induction 1 as [|i j det js [_ Hp] _ [IH1 IH2]]; [by split|].
  split; [|simpl; by rewrite IH2]. constructor; [|done].
  by eapply position_lt.
Qed.

Lemma addresses_inj self det js js' :
  addresses self det js → addresses self det js' → js = js'.
Proof.
  intros H. revert js'. induction H as [|i j det js [_ Hp] _ IH]; intros js' H'.
  - by apply Forall2_nil_inv_l in H'.
  - apply Forall2_cons_inv_l in H' as (j' & js'' & [_ Hp'] & H' & ->).
    rewrite Hp in Hp'. injection Hp' as <-. f_equal. by apply IH.
Qed.

(** ** When [det_to_occupation] returns *)

Lemma mark_alpha_nil (dist : list ascii) : mark_alpha [] dist = dist.
Proof.
  apply list_eq. intros i. unfold mark_alpha. rewrite list_lookup_imap.
  destruct (dist !! i); step; [|done].
  by rewrite decide_False by apply not_elem_of_nil.
Qed.

Lemma det_to_occupation_ok self (det_alpha det_beta : list Z) (ja jb : list nat) :
  addresses self det_alpha ja → addresses self det_beta jb →
  NoDup ja → NoDup jb →
  Conversion.det_to_occupation self det_alpha det_beta
  = if decide (Z.of_nat (length det_alpha) + Z.of_nat (length det_beta)
               ≠ Conversion.n_electrons self)
    then Conversion.Fail
           (Conversion.ElectronCount (Conversion.n_electrons self)
              (Z.of_nat (length det_alpha) + Z.of_nat (length det_beta)))
    else Conversion.Return
           (Py.join_chars
              (occupation (Z.to_nat (Conversion.n_orbitals self)) ja jb)).
Proof.
  intros Ha Hb Hnda Hndb.
  destruct (addresses_lt _ _ _ Ha) as [Hlta Hlena].
  destruct (addresses_lt _ _ _ Hb) as [Hltb Hlenb].
  unfold Conversion.det_to_occupation, Py.repeat.
  rewrite (process_alpha_ok self _ det_alpha ja);
    [|by rewrite length_replicate|done|done|].
  2:{ eapply Forall_impl; [exact Hlta|]. intros j Hj.
      by apply lookup_replicate_2. }
  step_outcome.
  rewrite (process_beta_ok self _ det_beta jb); [| |done|done|].
  2:{ unfold mark_alpha. by rewrite length_imap, length_replicate. }
  2:{ eapply Forall_impl; [exact Hltb|]. intros j Hj. cbv beta.
      rewrite lookup_mark_alpha_zeros by done.
      destruct (bool_decide (j ∈ ja)); auto. }
  step_outcome. rewrite mark_beta_mark_alpha, electrons_found_counts.
  destruct (counts_occupation (Z.to_nat (Conversion.n_orbitals self)) ja jb)
    as [-> ->]; [done..|].
  by rewrite Hlena, Hlenb.
Qed.

Lemma det_to_occupation_inv self (det_alpha det_beta : list Z) (s : string) :
  Conversion.det_to_occupation self det_alpha det_beta = Conversion.Return s →
  ∃ ja jb, addresses self det_alpha ja ∧ addresses self det_beta jb
           ∧ NoDup ja ∧ NoDup jb.
Proof.
  unfold Conversion.det_to_occupation, Py.repeat. intros Hret.
  destruct (Conversion.process_alpha _ _ det_alpha) as [dist|] eqn:Halpha;
    [|done].
  rewrite <- (mark_alpha_nil (replicate _ _)) in Halpha.
  destruct (process_alpha_inv _ _ _ _ Halpha) as (ja & Ha & Hnda & _).
  cbn [mbind Conversion.outcome_bind] in Hret.
  destruct (Conversion.process_beta _ _ det_beta) as [dist'|] eqn:Hbeta;
    [|done].
  assert (length dist = Z.to_nat (Conversion.n_orbitals self)) as Hlen.
  { rewrite mark_alpha_nil in Halpha.
    rewrite (process_alpha_ok self _ det_alpha ja) in Halpha;
      [|by rewrite length_replicate|done|done|].
    - injection Halpha as <-. unfold mark_alpha.
      by rewrite length_imap, length_replicate.
    - destruct (addresses_lt _ _ _ Ha) as [Hlta _].
      eapply Forall_impl; [exact Hlta|]. intros j Hj.
      by apply lookup_replicate_2. }
  destruct (process_beta_inv _ _ _ _ Hlen Hbeta) as (jb & Hb & Hndb & _).
  eauto 6.
Qed.

(** X10: [det_to_occupation] returns exactly when every index passes the
    bound check and addresses an orbital (a negative index counting from
    the end), no orbital is addressed twice by [det_alpha] nor twice by
    [det_beta], and the two lists have [n_electrons] entries together; the
    string returned has ['2'] at the orbitals in both lists, ['a'] and
    ['b'] at those in one, and ['0'] elsewhere. *)
Theorem det_to_occupation_returns_iff self (det_alpha det_beta : list Z)
    (s : string) :
  Conversion.det_to_occupation self det_alpha det_beta = Conversion.Return s
  ↔ ∃ ja jb,
      addresses self det_alpha ja ∧ addresses self det_beta jb
      ∧ NoDup ja ∧ NoDup jb
      ∧ Z.of_nat (length det_alpha) + Z.of_nat (length det_beta)
        = Conversion.n_electrons self
      ∧ s = Py.join_chars
              (occupation (Z.to_nat (Conversion.n_orbitals self)) ja jb).
Proof.
  split.
  - intros Hret.
    destruct (det_to_occupation_inv _ _ _ _ Hret) as (ja & jb & Ha & Hb & Hnda & Hndb).
    rewrite (det_to_occupation_ok _ _ _ ja jb) in Hret by done.
    case_decide as Hcount; [done|]. injection Hret as <-.
    exists ja, jb. split_and!; [done..| |done].
    by destruct (decide (Z.of_nat (length det_alpha) + Z.of_nat (length det_beta)
                         = Conversion.n_electrons self)).
  - intros (ja & jb & Ha & Hb & Hnda & Hndb & Hcount & ->).
    rewrite (det_to_occupation_ok _ _ _ ja jb) by done.
    by rewrite decide_False by (intros Hne; by apply Hne).
Qed.

(** The two rows of the table in the module's docstring. *)
Example det_to_occupation_docstring :
  Conversion.det_to_occupation (Conversion.__init__ 6 6) [0; 1; 2] [0; 1; 2]
  = Conversion.Return "222000"
  ∧ Conversion.det_to_occupation (Conversion.__init__ 6 6) [0; 1; 2] [0; 1; 3]
    = Conversion.Return "22ab00".
Proof. split; reflexivity. Qed.

Lemma addresses_non_negative self (det : list Z) :
  Forall (λ i, 0 ≤ i < Conversion.n_orbitals self) det →
  addresses self det (Z.to_nat <$> det).
Proof.
  induction 1 as [|i det Hi _ IH]; [constructor|].
  constructor; [|done]. split; [lia|]. apply position_non_negative. lia.
Qed.

Lemma NoDup_to_nat (det : list Z) :
  Forall (λ i, 0 ≤ i) det → NoDup det → NoDup (Z.to_nat <$> det).
Proof.
  intros Hpos Hnd. apply NoDup_fmap_2_strong; [|done].
  intros i i' Hi Hi' Heq.
  eapply Forall_forall in Hi; [|exact Hpos].
  eapply Forall_forall in Hi'; [|exact Hpos]. simpl in *. lia.
Qed.

(** X11: for lists of distinct orbital indices between [0] and
    [n_orbitals - 1] that hold [n_electrons] indices together, in any
    order, [det_to_occupation] returns the occupation string of those
    alpha and beta positions. *)
Theorem det_to_occupation_valid (n_orbitals n_electrons : Z)
    (det_alpha det_beta : list Z) :
  Forall (λ i, 0 ≤ i < n_orbitals) det_alpha →
  Forall (λ i, 0 ≤ i < n_orbitals) det_beta →
  NoDup det_alpha → NoDup det_beta →
  Z.of_nat (length det_alpha) + Z.of_nat (length det_beta) = n_electrons →
  Conversion.det_to_occupation (Conversion.__init__ n_orbitals n_electrons)
    det_alpha det_beta
  = Conversion.Return
      (Py.join_chars
         (occupation (Z.to_nat n_orbitals)
            (Z.to_nat <$> det_alpha) (Z.to_nat <$> det_beta))).
Proof.
  intros Ha Hb Hnda Hndb Hcount.
  rewrite (det_to_occupation_ok _ _ _ (Z.to_nat <$> det_alpha)
             (Z.to_nat <$> det_beta)).
  - by rewrite decide_False by (intros Hne; by apply Hne).
  - by apply addresses_non_negative.
  - by apply addresses_non_negative.
  - apply NoDup_to_nat; [|done]. eapply Forall_impl; [exact Ha|].
    simpl. lia.
  - apply NoDup_to_nat; [|done]. eapply Forall_impl; [exact Hb|].
    simpl. lia.
Qed.

Lemma det_to_occupation_valid_witness :
  Conversion.det_to_occupation (Conversion.__init__ 6 6) [2; 0; 1] [3; 1; 0]
  = Conversion.Return "22ab00".
Proof.
  apply (det_to_occupation_valid 6 6 [2; 0; 1] [3; 1; 0]).
  - repeat constructor; lia.
  - repeat constructor; lia.
  - apply (bool_decide_unpack _). vm_compute. exact I.
  - apply (bool_decide_unpack _). vm_compute. exact I.
  - reflexivity.
Defined.

(** X12: a string returned by [det_to_occupation] has one symbol of
    [0ab2] per orbital and the symbol weight [n_electrons]. *)
Theorem det_to_occupation_postcondition self (det_alpha det_beta : list Z)
    (s : string) :
  Conversion.det_to_occupation self det_alpha det_beta = Conversion.Return s →
  String.length s = Z.to_nat (Conversion.n_orbitals self)
  ∧ symbols_only s
  ∧ weight s = Conversion.n_electrons self.
Proof.
  intros Hret.
  destruct (det_to_occupation_inv _ _ _ _ Hret) as (ja & jb & Ha & Hb & Hnda & Hndb).
  rewrite (det_to_occupation_ok _ _ _ ja jb) in Hret by done.
  case_decide as Hcount; [done|]. injection Hret as <-.
  destruct (addresses_lt _ _ _ Ha) as [Hlta Hlena].
  destruct (addresses_lt _ _ _ Hb) as [Hltb Hlenb].
  destruct (counts_occupation (Z.to_nat (Conversion.n_orbitals self)) ja jb)
    as [Hca Hcb]; [done..|].
  split_and!.
  - by rewrite length_join_chars, length_occupation.
  - apply symbols_only_join_chars, occupation_is_occupation.
  - rewrite weight_join_chars, Hca, Hcb, Hlena, Hlenb.
    by destruct (decide (Z.of_nat (length det_alpha) + Z.of_nat (length det_beta)
                         = Conversion.n_electrons self)).
Qed.

Lemma det_to_occupation_postcondition_witness :
  String.length "b0000a" = 6%nat ∧ symbols_only "b0000a" ∧ weight "b0000a" = 2.
Proof.
  by apply (det_to_occupation_postcondition (Conversion.__init__ 6 2) [-1] [0]).
Defined.

(** ** How [det_to_occupation] fails *)

Lemma process_alpha_app self (dist : list ascii) (det det' : list Z) :
  Conversion.process_alpha self dist (det ++ det')
  = Conversion.process_alpha self dist det
    ≫= λ dist', Conversion.process_alpha self dist' det'.
Proof.
  revert dist. induction det as [|i det IH]; intros dist; [done|].
  cbn [app Conversion.process_alpha].
  destruct (decide (i >= Conversion.n_orbitals self)); [done|].
  destruct (Conversion.getitem dist i) as [c|]; [|done]. step_outcome.
  destruct (decide (c = "0"%char)).
  - destruct (Conversion.setitem dist i _); [|done]. step_outcome. apply IH.
  - destruct (decide (c = "b"%char)); [|done].
    destruct (Conversion.setitem dist i _); [|done]. step_outcome. apply IH.
Qed.

Lemma process_beta_app self (dist : list ascii) (det det' : list Z) :
  Conversion.process_beta self dist (det ++ det')
  = Conversion.process_beta self dist det
    ≫= λ dist', Conversion.process_beta self dist' det'.
Proof.
  revert dist. induction det as [|i det IH]; intros dist; [done|].
  cbn [app Conversion.process_beta].
  destruct (decide (i >= Conversion.n_orbitals self)); [done|].
  destruct (Conversion.getitem dist i) as [c|]; [|done]. step_outcome.
  destruct (decide (c = "0"%char)).
  - destruct (Conversion.setitem dist i _); [|done]. step_outcome. apply IH.
  - destruct (decide (c = "a"%char)); [|done].
    destruct (Conversion.setitem dist i _); [|done]. step_outcome. apply IH.
Qed.

(** The alpha loop up to the first index that stops it. *)
Lemma process_alpha_prefix self (good : list Z) (js : list nat) (i : Z)
    (rest : list Z) :
  addresses self good js → NoDup js →
  Conversion.process_alpha self
    (Py.repeat "0"%char (Conversion.n_orbitals self)) (good ++ i :: rest)
  = Conversion.process_alpha self
      (mark_alpha js (replicate (Z.to_nat (Conversion.n_orbitals self)) "0"%char))
      (i :: rest).
Proof.
  intros Haddr Hnd. unfold Py.repeat.
  rewrite process_alpha_app, (process_alpha_ok self _ good js);
    [done|by rewrite length_replicate|done|done|].
  destruct (addresses_lt _ _ _ Haddr) as [Hlt _].
  eapply Forall_impl; [exact Hlt|]. intros j Hj. by apply lookup_replicate_2.
Qed.

(** X13: the first index of [det_alpha] that is not below [n_orbitals]
    stops the call with the "exceeds number of orbitals" error for that
    index, whatever follows it and whatever [det_beta] is. *)
Theorem det_to_occupation_index_exceeds self (good : list Z) (js : list nat)
    (i : Z) (rest det_beta : list Z) :
  addresses self good js → NoDup js →
  Conversion.n_orbitals self ≤ i →
  Conversion.det_to_occupation self (good ++ i :: rest) det_beta
  = Conversion.Fail (Conversion.IndexExceeds i (Conversion.n_orbitals self)).
Proof.
  intros Haddr Hnd Hi. unfold Conversion.det_to_occupation.
  rewrite (process_alpha_prefix self good js) by done.
  cbn [Conversion.process_alpha]. by rewrite decide_True by lia.
Qed.

Lemma det_to_occupation_index_exceeds_witness :
  Conversion.det_to_occupation (Conversion.__init__ 6 6) [0; 1; 6; 6] [0; 1; 2]
  = Conversion.Fail (Conversion.IndexExceeds 6 6).
Proof.
  apply (det_to_occupation_index_exceeds (Conversion.__init__ 6 6) [0; 1]
           [0; 1]%nat 6 [6] [0; 1; 2]).
  - repeat constructor; simpl; lia.
  - apply (bool_decide_unpack _). vm_compute. exact I.
  - simpl. lia.
Defined.

(** X14: an index of [det_alpha] that addresses an orbital an earlier
    index of [det_alpha] addressed stops the call with the "already has an
    alpha electron" error for that index. *)
Theorem det_to_occupation_alpha_twice self (good : list Z) (js : list nat)
    (i : Z) (j : nat) (rest det_beta : list Z) :
  addresses self good js → NoDup js →
  addresses self [i] [j] → j ∈ js →
  Conversion.det_to_occupation self (good ++ i :: rest) det_beta
  = Conversion.Fail (Conversion.AlreadyAlpha i).
Proof.
  intros Haddr Hnd Hi Hj. unfold Conversion.det_to_occupation.
  apply Forall2_cons_1 in Hi as [[Hlt Hp] _].
  rewrite (process_alpha_prefix self good js) by done.
  cbn [Conversion.process_alpha]. rewrite decide_False by lia.
  assert (length (mark_alpha js
            (replicate (Z.to_nat (Conversion.n_orbitals self)) "0"%char))
          = Z.to_nat (Conversion.n_orbitals self)) as Hlen
    by (unfold mark_alpha; by rewrite length_imap, length_replicate).
  rewrite <- Hlen in Hp.
  assert (mark_alpha js
            (replicate (Z.to_nat (Conversion.n_orbitals self)) "0"%char) !! j
          = Some "a"%char) as Hlook.
  { rewrite lookup_mark_alpha_zeros, bool_decide_eq_true_2; [done..|].
    rewrite <- Hlen. by eapply position_lt. }
  rewrite !(getitem_position _ _ _ _ Hp Hlook). step_outcome.
  rewrite decide_False by done. step_outcome. by rewrite decide_False by done.
Qed.

Lemma det_to_occupation_alpha_twice_witness :
  Conversion.det_to_occupation (Conversion.__init__ 6 6) [0; 5; -1] [0; 1; 2]
  = Conversion.Fail (Conversion.AlreadyAlpha (-1)).
Proof.
  apply (det_to_occupation_alpha_twice (Conversion.__init__ 6 6) [0; 5]
           [0; 5]%nat (-1) 5%nat [] [0; 1; 2]).
  - repeat constructor; simpl; lia.
  - apply (bool_decide_unpack _). vm_compute. exact I.
  - repeat constructor; simpl; lia.
  - apply (bool_decide_unpack _). vm_compute. exact I.
Defined.

(** X15: an index of [det_alpha] below [- n_orbitals] (and below
    [n_orbitals]) stops the call with the [IndexError] of the list access:
    the bound check of the method does not catch it. *)
Theorem det_to_occupation_index_below self (good : list Z) (js : list nat)
    (i : Z) (rest det_beta : list Z) :
  addresses self good js → NoDup js →
  i < Conversion.n_orbitals self → i < - Conversion.n_orbitals self →
  Conversion.det_to_occupation self (good ++ i :: rest) det_beta
  = Conversion.Fail Conversion.ListIndexError.
Proof.
  intros Haddr Hnd Hi Hlow. unfold Conversion.det_to_occupation.
  rewrite (process_alpha_prefix self good js) by done.
  cbn [Conversion.process_alpha]. rewrite decide_False by lia.
  unfold Conversion.getitem.
  rewrite (position_below _ i); [done|].
  unfold mark_alpha. rewrite length_imap, length_replicate. lia.
Qed.

Lemma det_to_occupation_index_below_witness :
  Conversion.det_to_occupation (Conversion.__init__ 6 2) [-7] [0]
  = Conversion.Fail Conversion.ListIndexError.
Proof.
  apply (det_to_occupation_index_below (Conversion.__init__ 6 2) [] [] (-7) [] [0]).
  - constructor.
  - constructor.
  - simpl. lia.
  - simpl. lia.
Defined.

(** X16: after a [det_alpha] that passes, an index of [det_beta] that
    addresses an orbital an earlier index of [det_beta] addressed stops the
    call with the "already has a beta electron" error for that index. *)
Theorem det_to_occupation_beta_twice self (det_alpha : list Z) (ja : list nat)
    (good : list Z) (jb : list nat) (i : Z) (j : nat) (rest : list Z) :
  addresses self det_alpha ja → NoDup ja →
  addresses self good jb → NoDup jb →
  addresses self [i] [j] → j ∈ jb →
  Conversion.det_to_occupation self det_alpha (good ++ i :: rest)
  = Conversion.Fail (Conversion.AlreadyBeta i).
Proof.
  intros Ha Hnda Hb Hndb Hi Hj. unfold Conversion.det_to_occupation, Py.repeat.
  apply Forall2_cons_1 in Hi as [[Hlt Hp] _].
  destruct (addresses_lt _ _ _ Ha) as [Hlta _].
  destruct (addresses_lt _ _ _ Hb) as [Hltb _].
  rewrite (process_alpha_ok self _ det_alpha ja);
    [|by rewrite length_replicate|done|done|].
  2:{ eapply Forall_impl; [exact Hlta|]. intros j' Hj'.
      by apply lookup_replicate_2. }
  step_outcome.
  rewrite process_beta_app, (process_beta_ok self _ good jb); [| |done|done|].
  2:{ unfold mark_alpha. by rewrite length_imap, length_replicate. }
  2:{ eapply Forall_impl; [exact Hltb|]. intros j' Hj'. cbv beta.
      rewrite lookup_mark_alpha_zeros by done.
      destruct (bool_decide (j' ∈ ja)); auto. }
  step_outcome. rewrite mark_beta_mark_alpha.
  cbn [Conversion.process_beta]. rewrite decide_False by lia.
  pose proof (position_lt _ _ _ Hp) as Hjn.
  assert (∃ c, occupation (Z.to_nat (Conversion.n_orbitals self)) ja jb !! j
               = Some c ∧ c ≠ "0"%char ∧ c ≠ "a"%char) as (c & Hlook & H0 & Ha').
  { rewrite lookup_occupation by done.
    rewrite (bool_decide_eq_true_2 (j ∈ jb)) by done.
    destruct (bool_decide (j ∈ ja)); eexists; split_and!; done. }
  rewrite <- (length_occupation (Z.to_nat (Conversion.n_orbitals self)) ja jb)
    in Hp.
  rewrite !(getitem_position _ _ _ _ Hp Hlook). step_outcome.
  rewrite decide_False by done. step_outcome. by rewrite decide_False by done.
Qed.

Lemma det_to_occupation_beta_twice_witness :
  Conversion.det_to_occupation (Conversion.__init__ 6 6) [0; 1; 2] [0; 1; 1]
  = Conversion.Fail (Conversion.AlreadyBeta 1).
Proof.
  apply (det_to_occupation_beta_twice (Conversion.__init__ 6 6) [0; 1; 2]
           [0; 1; 2]%nat [0; 1] [0; 1]%nat 1 1%nat []).
  - repeat constructor; simpl; lia.
  - apply (bool_decide_unpack _). vm_compute. exact I.
  - repeat constructor; simpl; lia.
  - apply (bool_decide_unpack _). vm_compute. exact I.
  - repeat constructor; simpl; lia.
  - apply (bool_decide_unpack _). vm_compute. exact I.
Defined.

(** X17: when both lists pass their loops but do not hold [n_electrons]
    indices together, the call stops with the electron-count error, which
    reports the expected number and the number of indices found. *)
Theorem det_to_occupation_wrong_count self (det_alpha det_beta : list Z)
    (ja jb : list nat) :
  addresses self det_alpha ja → addresses self det_beta jb →
  NoDup ja → NoDup jb →
  Z.of_nat (length det_alpha) + Z.of_nat (length det_beta)
  ≠ Conversion.n_electrons self →
  Conversion.det_to_occupation self det_alpha det_beta
  = Conversion.Fail
      (Conversion.ElectronCount (Conversion.n_electrons self)
         (Z.of_nat (length det_alpha) + Z.of_nat (length det_beta))).
Proof.
  intros Ha Hb Hnda Hndb Hcount.
  rewrite (det_to_occupation_ok _ _ _ ja jb) by done.
  by rewrite decide_True by done.
Qed.

Lemma det_to_occupation_wrong_count_witness :
  Conversion.det_to_occupation (Conversion.__init__ 6 6) [0; 1; 2] [0; 1]
  = Conversion.Fail (Conversion.ElectronCount 6 5).
Proof.
  apply (det_to_occupation_wrong_count (Conversion.__init__ 6 6) [0; 1; 2] [0; 1]
           [0; 1; 2]%nat [0; 1]%nat).
  - repeat constructor; simpl; lia.
  - repeat constructor; simpl; lia.
  - apply (bool_decide_unpack _). vm_compute. exact I.
  - apply (bool_decide_unpack _). vm_compute. exact I.
  - simpl. lia.
Defined.

(** ** Negative indices, order and spin *)

Lemma position_wrap (n i : Z) :
  - n ≤ i < 0 →
  i + n < n
  ∧ Conversion.position (Z.to_nat n) (i + n) = Conversion.position (Z.to_nat n) i.
Proof.
  intros Hi. split; [lia|].
  rewrite position_non_negative, position_negative by lia.
  do 2 f_equal. lia.
Qed.

Lemma addresses_wrap self (det : list Z) (js : list nat) :
  Forall (λ i, - Conversion.n_orbitals self ≤ i) det →
  addresses self det js
  ↔ addresses self
      ((λ i, if decide (i < 0) then i + Conversion.n_orbitals self else i)
         <$> det) js.
Proof.
  intros Hlow. unfold addresses. rewrite Forall2_fmap_l.
  revert js. induction Hlow as [|i det Hi Hlow IH]; intros js.
  - split; intros ->%Forall2_nil_inv_l; constructor.
  - destruct js as [|j js]; [split; inversion 1|].
    rewrite !Forall2_cons, IH. unfold compose at 2. cbv beta.
    destruct (decide (i < 0)) as [Hneg|Hpos]; [|done].
    destruct (position_wrap (Conversion.n_orbitals self) i) as [Hlt ->]; [lia|].
    split; intros [[? ?] ?]; (split; [split; [lia|done]|done]).
Qed.

(** X18: an index from [- n_orbitals] to [-1] is accepted and stands for
    the orbital counted from the end: when no index is below
    [- n_orbitals], the call on the given lists returns a string exactly
    when the call on the lists with [n_orbitals] added to every negative
    index returns it. *)
Theorem det_to_occupation_negative_index self (det_alpha det_beta : list Z)
    (s : string) :
  Forall (λ i, - Conversion.n_orbitals self ≤ i) det_alpha →
  Forall (λ i, - Conversion.n_orbitals self ≤ i) det_beta →
  let wrap i := if decide (i < 0) then i + Conversion.n_orbitals self else i in
  Conversion.det_to_occupation self det_alpha det_beta = Conversion.Return s
  ↔ Conversion.det_to_occupation self (wrap <$> det_alpha) (wrap <$> det_beta)
    = Conversion.Return s.
Proof.
  intros Hla Hlb wrap. split; intros Hret.
  - destruct (det_to_occupation_inv _ _ _ _ Hret) as (ja & jb & Ha & Hb & Hnda & Hndb).
    rewrite (det_to_occupation_ok _ _ _ ja jb) in Hret by done.
    apply (addresses_wrap self _ _ Hla) in Ha.
    apply (addresses_wrap self _ _ Hlb) in Hb.
    by rewrite (det_to_occupation_ok _ _ _ ja jb), !length_fmap.
  - destruct (det_to_occupation_inv _ _ _ _ Hret) as (ja & jb & Ha & Hb & Hnda & Hndb).
    rewrite (det_to_occupation_ok _ _ _ ja jb), !length_fmap in Hret by done.
    apply (addresses_wrap self _ _ Hla) in Ha.
    apply (addresses_wrap self _ _ Hlb) in Hb.
    by rewrite (det_to_occupation_ok _ _ _ ja jb).
Qed.

Lemma det_to_occupation_negative_index_witness :
  Conversion.det_to_occupation (Conversion.__init__ 6 2) [5] [0]
  = Conversion.Return "b0000a".
Proof.
  apply (det_to_occupation_negative_index (Conversion.__init__ 6 2) [-1] [0]).
  - repeat constructor; simpl; lia.
  - repeat constructor; simpl; lia.
  - reflexivity.
Defined.

Lemma addresses_Permutation self (det det' : list Z) (js : list nat) :
  det ≡ₚ det' → addresses self det js →
  ∃ js', addresses self det' js' ∧ js ≡ₚ js'.
Proof.
  intros Hperm. revert js.
  induction Hperm as [|i det det' _ IH|i i' det|det det' det'' _ IH1 _ IH2];
    intros js Haddr.
  - exists js. by split.
  - apply Forall2_cons_inv_l in Haddr as (j & js0 & Hi & Haddr & ->).
    destruct (IH _ Haddr) as (js' & Haddr' & Hp).
    exists (j :: js'). split; [by constructor | by constructor].
  - apply Forall2_cons_inv_l in Haddr as (j & js0 & Hi & Haddr & ->).
    apply Forall2_cons_inv_l in Haddr as (j' & js1 & Hi' & Haddr & ->).
    exists (j' :: j :: js1). split; [|apply Permutation_swap].
    constructor; [done|]. by constructor.
  - destruct (IH1 _ Haddr) as (js' & Haddr' & Hp).
    destruct (IH2 _ Haddr') as (js'' & Haddr'' & Hp').
    exists js''. split; [done | by etrans].
Qed.

Lemma occupation_ext (n : nat) (ja jb ja' jb' : list nat) :
  (∀ i, i ∈ ja ↔ i ∈ ja') → (∀ i, i ∈ jb ↔ i ∈ jb') →
  occupation n ja jb = occupation n ja' jb'.
Proof.
  intros Ha Hb. unfold occupation. apply list_fmap_ext. intros _ i _.
  by rewrite (bool_decide_ext _ _ (Ha i)), (bool_decide_ext _ _ (Hb i)).
Qed.

(** X19: the order of the indices within [det_alpha] and within
    [det_beta] does not matter to the string returned. *)
Theorem det_to_occupation_any_order self
    (det_alpha det_alpha' det_beta det_beta' : list Z) (s : string) :
  det_alpha ≡ₚ det_alpha' → det_beta ≡ₚ det_beta' →
  Conversion.det_to_occupation self det_alpha det_beta = Conversion.Return s →
  Conversion.det_to_occupation self det_alpha' det_beta' = Conversion.Return s.
Proof.
  intros Hpa Hpb Hret.
  destruct (det_to_occupation_inv _ _ _ _ Hret) as (ja & jb & Ha & Hb & Hnda & Hndb).
  rewrite (det_to_occupation_ok _ _ _ ja jb) in Hret by done.
  destruct (addresses_Permutation _ _ _ _ Hpa Ha) as (ja' & Ha' & Hja).
  destruct (addresses_Permutation _ _ _ _ Hpb Hb) as (jb' & Hb' & Hjb).
  rewrite (det_to_occupation_ok _ _ _ ja' jb');
    [|done|done|by rewrite <- Hja|by rewrite <- Hjb].
  rewrite <- (Permutation_length Hpa), <- (Permutation_length Hpb), <- Hret.
  by rewrite (occupation_ext _ ja jb ja' jb')
    by (intros i; by rewrite ?Hja, ?Hjb).
Qed.

Lemma det_to_occupation_any_order_witness :
  Conversion.det_to_occupation (Conversion.__init__ 6 6) [2; 0; 1] [3; 1; 0]
  = Conversion.Return "22ab00".
Proof.
  apply (det_to_occupation_any_order (Conversion.__init__ 6 6)
           [0; 1; 2] [2; 0; 1] [0; 1; 3] [3; 1; 0]).
  - symmetry. apply (Permutation_cons_append [0; 1] 2).
  - etrans; [apply Permutation_swap|].
    symmetry. apply (Permutation_cons_append [1; 0] 3).
  - reflexivity.
Defined.

Lemma occupation_flip (n : nat) (ja jb : list nat) :
  occupation n jb ja = flip_symbol <$> occupation n ja jb.
Proof.
  unfold occupation. rewrite <- list_fmap_compose. apply list_fmap_ext.
  intros _ i _. simpl.
  by destruct (bool_decide (i ∈ ja)), (bool_decide (i ∈ jb)).
Qed.

(** X20: exchanging the two determinants exchanges the spins in the string
    returned: every ['a'] becomes ['b'] and every ['b'] becomes ['a']. *)
Theorem det_to_occupation_exchange self (det_alpha det_beta : list Z)
    (s : string) :
  Conversion.det_to_occupation self det_alpha det_beta = Conversion.Return s →
  Conversion.det_to_occupation self det_beta det_alpha
  = Conversion.Return (flip_spins s).
Proof.
  intros Hret.
  destruct (det_to_occupation_inv _ _ _ _ Hret) as (ja & jb & Ha & Hb & Hnda & Hndb).
  rewrite (det_to_occupation_ok _ _ _ ja jb) in Hret by done.
  rewrite (det_to_occupation_ok _ _ _ jb ja) by done.
  rewrite (Z.add_comm (Z.of_nat (length det_beta))).
  case_decide; [done|]. injection Hret as <-.
  unfold flip_spins. by rewrite map_string_join_chars, occupation_flip.
Qed.

Lemma det_to_occupation_exchange_witness :
  Conversion.det_to_occupation (Conversion.__init__ 6 6) [0; 1; 3] [0; 1; 2]
  = Conversion.Return "22ba00".
Proof.
  by apply (det_to_occupation_exchange (Conversion.__init__ 6 6)
              [0; 1; 2] [0; 1; 3] "22ab00").
Defined.

(** ** The generator and the converter agree *)

Lemma addresses_of_nat self (js : list nat) :
  Forall (λ j, (j < Z.to_nat (Conversion.n_orbitals self))%nat) js →
  addresses self (Z.of_nat <$> js) js.
Proof.
  intros Hlt. unfold addresses. apply Forall2_fmap_l, Forall_Forall2_diag.
  eapply Forall_impl; [exact Hlt|]. intros j Hj. unfold compose. cbv beta in *.
  split; [lia|]. rewrite position_non_negative by lia. f_equal. lia.
Qed.

(** X21: every string that [generate_configurations] returns on
    non-negative counts is, spaces removed, what [det_to_occupation]
    returns for the same numbers of orbitals and of active electrons on the
    positions of the string's alpha symbols ([a], [2]) and beta symbols
    ([b], [2]). *)
Theorem generated_string_converts (te fc : Z) (specs : list (string * Z))
    (configs : gset string) (s : string) :
  counts_non_negative specs →
  returns generate_configurations (__init__ te fc specs) = Ok configs →
  s ∈ configs →
  let occ := list_ascii_of_string (remove_spaces s) in
  Conversion.det_to_occupation
    (Conversion.__init__ (Py.sum (specs.*2)) (te - fc))
    (Z.of_nat <$> indices_where holds_alpha occ)
    (Z.of_nat <$> indices_where holds_beta occ)
  = Conversion.Return (remove_spaces s).
Proof.
  intros Hcounts Hret Hs occ.
  destruct (generate_returned _ _ Hret) as (Hpos & _ & Hocc).
  apply Hocc in Hs as (occ0 & Hio & Ha & Hb & Hs).
  apply returns_format in Hs.
  pose proof (spin_split_bounds (te - fc)) as [_ Hsum].
  unfold n_alpha, n_beta in Ha, Hb. rewrite init_fields in Hs, Hio, Ha, Hb.
  cbn [irrep_positions n_orbitals active_electrons] in Hs, Hio, Ha, Hb.
  assert (remove_spaces s = Py.join_chars occ0) as Hrm
    by (rewrite Hs; by apply remove_spaces_format).
  assert (occ = occ0) as ->.
  { unfold occ. rewrite Hrm. apply list_ascii_of_string_of_list_ascii. }
  destruct Hio as [Hlen Hsym].
  set (self := Conversion.__init__ (Py.sum (specs.*2)) (te - fc)).
  assert (∀ P `{!∀ c, Decision (P c)},
    Forall (λ j, (j < Z.to_nat (Conversion.n_orbitals self))%nat)
      (indices_where P occ0) ∧ NoDup (indices_where P occ0)) as Hidx.
  { intros P ?. pose proof (indices_where_sublist P occ0) as Hsub.
    rewrite Hlen in Hsub. split.
    - by apply (sublist_range_inv (Py.sum (specs.*2))).
    - eapply sublist_NoDup; [apply NoDup_seq | exact Hsub]. }
  destruct (Hidx holds_alpha _) as [Hlta Hnda].
  destruct (Hidx holds_beta _) as [Hltb Hndb].
  rewrite (det_to_occupation_ok self _ _ (indices_where holds_alpha occ0)
             (indices_where holds_beta occ0));
    [|by apply addresses_of_nat..|done|done].
  rewrite !length_fmap, !length_indices_where.
  fold (alpha_count occ0) (beta_count occ0).
  rewrite decide_False by (simpl; lia).
  rewrite Hrm. do 2 f_equal.
  change (Conversion.n_orbitals self) with (Py.sum (specs.*2)).
  rewrite <- Hlen. by apply occupation_indices_where.
Qed.

Lemma generated_string_converts_witness :
  Conversion.det_to_occupation (Conversion.__init__ 3 3) [0] [1; 2]
  = Conversion.Return "abb".
Proof.
  apply (generated_string_converts 3 0 [("A", 2); ("B", 1)]
           {[ "ab b"; "2b 0"; "20 b"; "ba b"; "b2 0"; "bb a"; "b0 2"; "02 b";
              "0b 2" ]} "ab b").
  - repeat constructor; simpl; lia.
  - vm_compute. reflexivity.
  - apply (bool_decide_unpack _). vm_compute. exact I.
Defined.
